(** * STAGECRAFT: design history, library storage and retry policy

    A shallow embedding of the state and control logic of the STAGECRAFT
    application: the Gemini service wrappers ([retryWithBackoff], the batch
    generators, [generateStageDescription]), the storage service
    ([saveDesignToLibrary], [deleteFolder], ...) and the handlers of the
    [App] component that maintain a design's image history.

    Conventions of the embedding.
    - JavaScript numbers that the code only uses as integers (indices,
      delays, HTTP status codes, timestamps) are [Z].
    - A property that may be [undefined] is an [option]; a thrown value is a
      [Thrown]; an [async] function is a function on an explicit world that
      returns either the thrown value or the result.
    - The remote model is an oracle that answers the k-th request; the text
      of the prompts never influences control flow and is not represented.
    - The IndexedDB object store is represented by its key-value contract
      (get, put, delete, getAll); transaction scheduling is not. *)

From stdpp Require Import gmap strings list pretty.
From Stdlib Require Import ZArith Lia Ascii.

Local Open Scope Z_scope.

(** ** JavaScript string primitives used by the error classifiers *)

Module Js.

(** [s.includes(sub)] *)
Fixpoint includes (s sub : string) : bool :=
  String.prefix sub s ||
  match s with
  | EmptyString => false
  | String _ s' => includes s' sub
  end.

(** [toLowerCase] on the ASCII range (the markers that the code looks for
    are ASCII and no other character lower-cases to one of their letters). *)
Definition lower_ascii (c : ascii) : ascii :=
  let n := nat_of_ascii c in
  if ((65 <=? n)%nat && (n <=? 90)%nat)%bool then ascii_of_nat (n + 32) else c.

Fixpoint toLowerCase (s : string) : string :=
  match s with
  | EmptyString => EmptyString
  | String c s' => String (lower_ascii c) (toLowerCase s')
  end.

(** Truthiness of a [string | undefined] value. *)
Definition truthy (s : option string) : bool :=
  match s with
  | None => false
  | Some EmptyString => false
  | Some _ => true
  end.

(** [xs[i]] for an integer index. *)
Definition index {A} (xs : list A) (i : Z) : option A :=
  if bool_decide (0 <= i) then xs !! Z.to_nat i else None.

(** [xs.slice(0, e)] for an integer [e]: a negative end counts from the
    end of the array. *)
Definition slice0 {A} (xs : list A) (e : Z) : list A :=
  if bool_decide (e < 0)
  then take (Z.to_nat (Z.max (Z.of_nat (length xs) + e) 0)) xs
  else take (Z.to_nat e) xs.

End Js.

(** ** Thrown values and the world of the remote service *)

(** The two properties of an error object that the code inspects. *)
Record ErrorObj := mkError { message : option string; status : option Z }.

(** A thrown value: an error object, or [undefined] (the initial value of
    [lastError] in [retryWithBackoff]). *)
Inductive Thrown :=
| Undefined
| Obj (e : ErrorObj).

(** [new Error(msg)] *)
Definition newError (msg : string) : Thrown :=
  Obj {| message := Some msg; status := None |}.

(** Reading a property of [undefined]. *)
Definition typeError : Thrown :=
  newError "Cannot read properties of undefined (reading 'message')".

Record Blob := mkBlob { data : option string }.
Record Part := mkPart { inlineData : option Blob }.
Record Candidate := mkCandidate {
  finishReason : option string;
  parts : option (list Part)      (* [content?.parts] *)
}.
Record Response := mkResponse {
  candidates : option (list Candidate);
  text : option string
}.

(** The observable world of the service: how many requests were sent and
    which delays were slept, in order. *)
Record World := mkWorld { calls : nat; waited : list Z }.

Definition Api (A : Type) : Type := World -> (Thrown + A) * World.

Definition ret {A} (a : A) : Api A := fun w => (inr a, w).
Definition throw {A} (t : Thrown) : Api A := fun w => (inl t, w).
Definition bind {A B} (m : Api A) (k : A -> Api B) : Api B :=
  fun w => match m w with
           | (inr a, w') => k a w'
           | (inl t, w') => (inl t, w')
           end.
Definition try_catch {A} (m : Api A) (handler : Thrown -> Api A) : Api A :=
  fun w => match m w with
           | (inr a, w') => (inr a, w')
           | (inl t, w') => handler t w'
           end.

Declare Scope api_scope.
Delimit Scope api_scope with api.
Notation "x <- m ;; k" := (bind m (fun x => k))
  (at level 100, m at next level, right associativity) : api_scope.
Notation "m ;;; k" := (bind m (fun _ => k))
  (at level 100, right associativity) : api_scope.

(** [wait(ms)] *)
Definition wait (ms : Z) : Api unit :=
  fun w => (inr tt, {| calls := calls w; waited := waited w ++ [ms] |}).

(** The remote oracle: the outcome of the k-th request. *)
Definition Oracle : Type := nat -> ErrorObj + Response.

(** [ai.models.generateContent(...)] *)
Definition generateContent (api : Oracle) : Api Response :=
  fun w =>
    (match api (calls w) with
     | inl e => inl (Obj e)
     | inr r => inr r
     end,
     {| calls := S (calls w); waited := waited w |}).

(** ** RetryPolicy: [retryWithBackoff] *)

Section Retry.
Context {T : Type}.
(** The classification of an error as a quota error differs between the
    two copies of the service. *)
Variable isQuotaError : ErrorObj -> bool.
Variable operation : Api T.
Variable retries : nat.
Variable initialDelay : Z.

(** The [for] loop at index [i] with [fuel = retries - i] iterations
    left. *)
Fixpoint retry_loop (fuel i : nat) (lastError : Thrown) : Api T :=
  match fuel with
  | O => throw lastError
  | S fuel' => fun w =>
      match operation w with
      | (inr v, w1) => (inr v, w1)
      | (inl Undefined, w1) => (inl typeError, w1)
      | (inl (Obj error), w1) =>
          if isQuotaError error && bool_decide (Z.of_nat i < Z.of_nat retries - 1)
          then
            let delay := initialDelay * 2 ^ Z.of_nat i in
            retry_loop fuel' (S i) (Obj error) (wait delay w1).2
          else (inl (Obj error), w1)
      end
  end.

Definition retryWithBackoff_with : Api T := retry_loop retries 0 Undefined.
End Retry.

(** The first copy of the service (the commented one). *)
Module Gemini1.

Definition isQuotaError (error : ErrorObj) : bool :=
  from_option (fun m => Js.includes m "429") false (message error)
  || from_option (fun m => Js.includes (Js.toLowerCase m) "quota") false (message error)
  || bool_decide (status error = Some 429).

Definition retryWithBackoff {T} (operation : Api T) (retries : nat) (initialDelay : Z) : Api T :=
  retryWithBackoff_with isQuotaError operation retries initialDelay.

End Gemini1.

(** The second copy of the service (the compact one). *)
Module Gemini2.

Definition isQuotaError (error : ErrorObj) : bool :=
  let errorMsg := from_option Js.toLowerCase "" (message error) in
  Js.includes errorMsg "429"
  || Js.includes errorMsg "quota"
  || Js.includes errorMsg "too many requests"
  || bool_decide (status error = Some 429).

Definition retryWithBackoff {T} (operation : Api T) (retries : nat) (initialDelay : Z) : Api T :=
  retryWithBackoff_with isQuotaError operation retries initialDelay.

End Gemini2.

(** ** Data model (types.ts) *)

Record TechnicalSpecs := mkSpecs {
  lighting : string;
  video : string;
  specialEffects : string
}.

Record DesignResponseSchema := mkDetails {
  conceptTitle : string;
  description : string;
  transformationSequence : string;
  technicalSpecs : TechnicalSpecs
}.

(** Of [StageConfig] only [imageCount] influences control flow; the other
    fields are interpolated into the prompt. *)
Record StageConfig := mkConfig { imageCount : Z }.

(** An optional property of an object: missing, present with the value
    [undefined], or present with a value. Reading it cannot tell the first
    two apart. *)
Inductive Optional (A : Type) :=
| Absent
| Undef
| Given (a : A).
Arguments Absent {A}.
Arguments Undef {A}.
Arguments Given {A} a.

Definition read {A} (p : Optional A) : option A :=
  match p with
  | Given a => Some a
  | _ => None
  end.

(** [{ ..., prop: v }] for a [v] that may be [undefined]. *)
Definition assign {A} (v : option A) : Optional A :=
  match v with
  | Some a => Given a
  | None => Undef
  end.

Record GeneratedDesign := mkDesign {
  id : string;
  imageUrl : option string;          (* [None]: an out-of-range history read *)
  videoUrl : option string;
  variants : option (list string);
  imageHistory : list string;
  historyIndex : Z;
  details : DesignResponseSchema;   (* conceptTitle ... technicalSpecs *)
  timestamp : Z;
  folder : Optional string
}.

(** ** The image and text services *)

(** [`data:image/png;base64,${part.inlineData.data}`] *)
Definition dataUrl (b : Blob) : string :=
  "data:image/png;base64," +:+ default "undefined" (data b).

(** [response.candidates?.[0]?.content?.parts || []] *)
Definition firstCandidateParts (response : Response) : list Part :=
  match candidates response with
  | Some (c :: _) => default [] (parts c)
  | _ => []
  end.

(** Every part of the first candidate that carries inline data, as a data
    URL. *)
Definition inlineImages (response : Response) : list string :=
  omap (fun p => dataUrl <$> inlineData p) (firstCandidateParts response).

(** [parts?.find(p => p.inlineData)], as a data URL. *)
Definition firstInlineImage (response : Response) : option string :=
  head (inlineImages response).

Module Service1.
Import Gemini1.

Section WithOracle.
Variable api : Oracle.
(** [JSON.parse(text) as DesignResponseSchema]; [None] is a SyntaxError. *)
Variable JSON_parse : string -> option DesignResponseSchema.

(** The test of the batch loops' [catch] block. *)
Definition quotaMessage (error : ErrorObj) : bool :=
  from_option (fun m => Js.includes m "429") false (message error)
  || from_option (fun m => Js.includes (Js.toLowerCase m) "quota") false (message error).

(** One iteration body: the pause, then the wrapped request. *)
Definition attempt (i : nat) : Api Response :=
  ((if bool_decide (0 < i)%nat then wait 1000 else ret tt) ;;;
   retryWithBackoff (generateContent api) 3 2000)%api.

(** The sequential loop of [generateStageImage] and
    [generateSimilarVariant], at index [i] with [fuel] iterations left
    and [images] collected so far. *)
Fixpoint batch_loop (fuel i : nat) (images : list string) : Api (list string) :=
  match fuel with
  | O => ret images
  | S fuel' => fun w =>
      match attempt i w with
      | (inr response, w1) =>
          batch_loop fuel' (S i) (images ++ inlineImages response) w1
      | (inl Undefined, w1) => (inl typeError, w1)
      | (inl (Obj error), w1) =>
          if quotaMessage error
          then (inr images, w1)                       (* break *)
          else batch_loop fuel' (S i) images w1
      end
  end.

Definition batch (count : Z) (failure : string) : Api (list string) :=
  (images <- batch_loop (Z.to_nat count) 0 [] ;;
   if bool_decide (0 < length images)%nat then ret images
   else throw (newError failure))%api.

Definition generateStageImage (config : StageConfig) : Api (list string) :=
  batch (imageCount config)
    "No image generated (All attempts failed or Quota exceeded)".

Definition generateSimilarVariant (originalImageUrl : string) (count : Z)
  : Api (list string) :=
  batch count
    "No similar variant returned (All attempts failed or Quota exceeded)".

(** The single-image requests return the first inline image. *)
Definition singleImage (failure : string) : Api string :=
  (response <- retryWithBackoff (generateContent api) 3 2000 ;;
   match firstInlineImage response with
   | Some url => ret url
   | None => throw (newError failure)
   end)%api.

Definition upscaleStageImage (imageUrl : string) : Api string :=
  singleImage "No upscaled image returned".

Definition generateViewpointVariant (originalImageUrl targetViewpoint : string)
  : Api string :=
  singleImage "No variant image returned".

Definition editStageImage (currentImageUrl instruction : string)
    (maskBase64 : option string) : Api string :=
  singleImage "No image returned from edit operation".

Definition placeholder : DesignResponseSchema :=
  {| conceptTitle := "生成錯誤";
     description := "無法生成詳細資訊，請重試。";
     transformationSequence := "因錯誤而顯示靜態配置。";
     technicalSpecs :=
       {| lighting := "N/A"; video := "N/A"; specialEffects := "N/A" |} |}.

Definition generateStageDescription (config : StageConfig)
  : Api DesignResponseSchema :=
  try_catch
    (response <- retryWithBackoff (generateContent api) 3 2000 ;;
     if Js.truthy (text response) then
       match JSON_parse (default "" (text response)) with
       | Some d => ret d
       | None => throw (newError "Unexpected token in JSON")
       end
     else throw (newError "No text generated"))%api
    (fun _ => ret placeholder).

End WithOracle.
End Service1.

Module Service2.
Import Gemini2.

Section WithOracle.
Variable api : Oracle.
Variable JSON_parse : string -> option DesignResponseSchema.

Definition attempt : Api Response :=
  retryWithBackoff (generateContent api) 3 2000.

(** The pause is outside the [try]; any failure leaves the loop. *)
Fixpoint batch_loop (fuel i : nat) (images : list string) : Api (list string) :=
  match fuel with
  | O => ret images
  | S fuel' => fun w =>
      let w0 := if bool_decide (0 < i)%nat then (wait 1000 w).2 else w in
      match attempt w0 with
      | (inr response, w1) =>
          batch_loop fuel' (S i)
            (images ++ option_list (firstInlineImage response)) w1
      | (inl _, w1) => (inr images, w1)               (* break *)
      end
  end.

Definition generateStageImage (config : StageConfig) : Api (list string) :=
  (images <- batch_loop (Z.to_nat (imageCount config)) 0 [] ;;
   if bool_decide (0 < length images)%nat then ret images
   else throw (newError "Failed to generate stage images."))%api.

(** This copy returns the collected images even when there are none. *)
Definition generateSimilarVariant (originalImageUrl : string) (count : Z)
  : Api (list string) :=
  batch_loop (Z.to_nat count) 0 [].

Definition singleImage (failure : string) : Api string :=
  (response <- retryWithBackoff (generateContent api) 3 2000 ;;
   match firstInlineImage response with
   | Some url => ret url
   | None => throw (newError failure)
   end)%api.

Definition upscaleStageImage (imageUrl : string) : Api string :=
  singleImage "Upscale failed.".

Definition generateViewpointVariant (originalImageUrl targetViewpoint : string)
  : Api string :=
  singleImage "Viewpoint variant failed.".

Definition editStageImage (currentImageUrl instruction : string)
    (maskBase64 : option string) : Api string :=
  singleImage "Edit failed.".

Definition placeholder : DesignResponseSchema :=
  {| conceptTitle := "設計概念";
     description := "無法生成描述。";
     transformationSequence := "無變動細節。";
     technicalSpecs :=
       {| lighting := "N/A"; video := "N/A"; specialEffects := "N/A" |} |}.

(** [JSON.parse(undefined)] is a SyntaxError. *)
Definition generateStageDescription (config : StageConfig)
  : Api DesignResponseSchema :=
  try_catch
    (response <- retryWithBackoff (generateContent api) 3 2000 ;;
     match text response ≫= JSON_parse with
     | Some d => ret d
     | None => throw (newError "Unexpected token in JSON")
     end)%api
    (fun _ => ret placeholder).

End WithOracle.
End Service2.

(** ** storageService: the object store and the folder list *)

Record Storage := mkStorage {
  db_available : bool;                       (* [indexedDB.open] succeeds *)
  designs : gmap string GeneratedDesign;     (* object store, keyPath [id] *)
  folders_slot : option (list string)        (* localStorage[FOLDERS_KEY] *)
}.

Definition defaultFolders : list string := ["最愛 (Favorites)"; "草稿 (Drafts)"].

(** A stable sort: [before a b] holds when the comparator puts [a] strictly
    in front of [b]. *)
Fixpoint insert_by {A} (before : A -> A -> bool) (x : A) (l : list A) : list A :=
  match l with
  | [] => [x]
  | y :: l' => if before y x then y :: insert_by before x l' else x :: y :: l'
  end.

Definition sort_by {A} (before : A -> A -> bool) (l : list A) : list A :=
  foldr (insert_by before) [] l.

(** [store.getAll()]: the records in ascending key order. *)
Definition getAll (m : gmap string GeneratedDesign) : list GeneratedDesign :=
  (sort_by (fun a b => String.ltb a.1 b.1) (map_to_list m)).*2.

(** [results.sort((a, b) => b.timestamp - a.timestamp)] *)
Definition newestFirst (l : list GeneratedDesign) : list GeneratedDesign :=
  sort_by (fun a b => bool_decide (timestamp b < timestamp a)) l.

Definition getSavedDesigns (s : Storage) : list GeneratedDesign :=
  if db_available s then newestFirst (getAll (designs s)) else [].

(** [{ ...design, folder: f }] *)
Definition with_folder (f : Optional string) (design : GeneratedDesign)
  : GeneratedDesign :=
  {| id := id design; imageUrl := imageUrl design; videoUrl := videoUrl design;
     variants := variants design; imageHistory := imageHistory design;
     historyIndex := historyIndex design; details := details design;
     timestamp := timestamp design; folder := f |}.

(** [store.put(design)] *)
Definition put (design : GeneratedDesign) (s : Storage) : Storage :=
  {| db_available := db_available s;
     designs := <[id design := design]> (designs s);
     folders_slot := folders_slot s |}.

Definition idbError : Thrown := newError "IndexedDB is not available".

Definition saveDesignToLibrary (design : GeneratedDesign) (s : Storage)
  : (Thrown + list GeneratedDesign) * Storage :=
  if db_available s then
    let currentDesign := designs s !! id design in
    let designToSave :=
      with_folder
        (match read (folder design) with
         | Some f => Given f
         | None => assign (currentDesign ≫= fun c => read (folder c))
         end) design in
    let s' := put designToSave s in
    (inr (getSavedDesigns s'), s')
  else (inl idbError, s).

Definition deleteDesignFromLibrary (designId : string) (s : Storage)
  : list GeneratedDesign * Storage :=
  if db_available s then
    let s' := {| db_available := db_available s;
                 designs := delete designId (designs s);
                 folders_slot := folders_slot s |} in
    (getSavedDesigns s', s')
  else (getSavedDesigns s, s).

Definition getFolders (s : Storage) : list string :=
  default defaultFolders (folders_slot s).

Definition setFolders (folders : list string) (s : Storage) : Storage :=
  {| db_available := db_available s; designs := designs s;
     folders_slot := Some folders |}.

Definition createFolder (folderName : string) (s : Storage) : list string * Storage :=
  let folders := getFolders s in
  if bool_decide (folderName ∈ folders) then (folders, s)
  else let newFolders := folders ++ [folderName] in
       (newFolders, setFolders newFolders s).

(** The lifetime of an IndexedDB transaction. A transaction on which no
    request is pending is finished as soon as the function that opened it
    waits for something else; a request made on a finished transaction
    throws. A transaction used at once, in the callback that opened it, is
    active: that is the case of [saveDesignToLibrary],
    [deleteDesignFromLibrary] and [moveDesignToFolder] above and below,
    which use [put] and [delete] directly. *)
Inductive Transaction := Active | Finished.

(** [await] on a promise that is not a request of [tx]. *)
Definition await_other (tx : Transaction) : Transaction :=
  match tx with
  | Active => Finished
  | Finished => Finished
  end.

Definition transactionInactive : Thrown :=
  newError "The transaction has finished.".

(** [store.put(design)] on a store of the transaction [tx] *)
Definition store_put (tx : Transaction) (design : GeneratedDesign) (s : Storage)
  : (Thrown + unit) * Storage :=
  match tx with
  | Active => (inr tt, put design s)
  | Finished => (inl transactionInactive, s)
  end.

(** The loop of [deleteFolder]:
    [for (const design of designs)
       if (design.folder === folderName)
         await new Promise(resolve => { store.put({ ...design, folder: undefined }); resolve(); })]
    A [put] that throws rejects the promise and ends the loop. *)
Fixpoint clearLoop (folderName : string) (tx : Transaction)
    (designs : list GeneratedDesign) (st : Storage) : (Thrown + unit) * Storage :=
  match designs with
  | [] => (inr tt, st)
  | design :: rest =>
      if bool_decide (read (folder design) = Some folderName) then
        match store_put tx (with_folder Undef design) st with
        | (inr _, st') => clearLoop folderName tx rest st'
        | (inl e, st') => (inl e, st')
        end
      else clearLoop folderName tx rest st
  end.

(** [deleteFolder] opens its transaction, then awaits [getSavedDesigns()],
    then runs the loop on the store of that transaction; its [catch] block
    logs whatever the loop throws. *)
Definition deleteFolder (folderName : string) (s : Storage) : list string * Storage :=
  let folders := filter (fun f => f ≠ folderName) (getFolders s) in
  let s1 := setFolders folders s in
  if db_available s1 then
    let tx := Active in
    let designs := getSavedDesigns s1 in
    let tx := await_other tx in
    (folders, (clearLoop folderName tx designs s1).2)
  else (folders, s1).

Definition moveDesignToFolder (designId : string) (folderName : option string)
    (s : Storage) : list GeneratedDesign * Storage :=
  if db_available s then
    let s' := match designs s !! designId with
              | Some d => put (with_folder (assign folderName) d) s
              | None => s
              end in
    (getSavedDesigns s', s')
  else (getSavedDesigns s, s).

(** The object store keeps every record under its own [id] (keyPath). *)
Definition keyed (m : gmap string GeneratedDesign) : Prop :=
  map_Forall (fun k d => id d = k) m.

(** ** The App component: current design, history and cursor *)

Record AppState := mkApp {
  config : StageConfig;
  currentDesign : option GeneratedDesign;
  savedDesigns : list GeneratedDesign;
  autoSave : bool;
  isGenerating : bool;
  isEditingImage : bool;
  error : option string
}.

(** The whole system a handler runs in. [uuids] counts the identifiers
    drawn from [crypto.randomUUID]. *)
Record System := mkSystem {
  app : AppState;
  net : World;
  disk : Storage;
  uuids : nat
}.

Definition setCurrentDesign (d : option GeneratedDesign) (a : AppState) : AppState :=
  {| config := config a; currentDesign := d; savedDesigns := savedDesigns a;
     autoSave := autoSave a; isGenerating := isGenerating a;
     isEditingImage := isEditingImage a; error := error a |}.
Definition setSavedDesigns (l : list GeneratedDesign) (a : AppState) : AppState :=
  {| config := config a; currentDesign := currentDesign a; savedDesigns := l;
     autoSave := autoSave a; isGenerating := isGenerating a;
     isEditingImage := isEditingImage a; error := error a |}.
Definition setIsGenerating (b : bool) (a : AppState) : AppState :=
  {| config := config a; currentDesign := currentDesign a;
     savedDesigns := savedDesigns a; autoSave := autoSave a; isGenerating := b;
     isEditingImage := isEditingImage a; error := error a |}.
Definition setIsEditingImage (b : bool) (a : AppState) : AppState :=
  {| config := config a; currentDesign := currentDesign a;
     savedDesigns := savedDesigns a; autoSave := autoSave a;
     isGenerating := isGenerating a; isEditingImage := b; error := error a |}.
Definition setError (e : option string) (a : AppState) : AppState :=
  {| config := config a; currentDesign := currentDesign a;
     savedDesigns := savedDesigns a; autoSave := autoSave a;
     isGenerating := isGenerating a; isEditingImage := isEditingImage a;
     error := e |}.

Definition on_app (f : AppState -> AppState) (sys : System) : System :=
  {| app := f (app sys); net := net sys; disk := disk sys; uuids := uuids sys |}.
Definition with_net (w : World) (sys : System) : System :=
  {| app := app sys; net := w; disk := disk sys; uuids := uuids sys |}.
Definition with_disk (s : Storage) (sys : System) : System :=
  {| app := app sys; net := net sys; disk := s; uuids := uuids sys |}.

(** [{ ...prev, imageUrl, imageHistory, historyIndex }] *)
Definition with_image (url : option string) (history : list string) (index : Z)
    (prev : GeneratedDesign) : GeneratedDesign :=
  {| id := id prev; imageUrl := url; videoUrl := videoUrl prev;
     variants := variants prev; imageHistory := history; historyIndex := index;
     details := details prev; timestamp := timestamp prev; folder := folder prev |}.

(** [{ ...target, imageUrl, variants: [], imageHistory, historyIndex }] *)
Definition with_selection (url : option string) (history : list string) (index : Z)
    (target : GeneratedDesign) : GeneratedDesign :=
  {| id := id target; imageUrl := url; videoUrl := videoUrl target;
     variants := Some []; imageHistory := history; historyIndex := index;
     details := details target; timestamp := timestamp target;
     folder := folder target |}.

(** [{ ...design, variants }] *)
Definition with_variants (vs : option (list string)) (design : GeneratedDesign)
  : GeneratedDesign :=
  {| id := id design; imageUrl := imageUrl design; videoUrl := videoUrl design;
     variants := vs; imageHistory := imageHistory design;
     historyIndex := historyIndex design; details := details design;
     timestamp := timestamp design; folder := folder design |}.

(** The test of the handlers' [catch] blocks. *)
Definition quotaMessage (err : ErrorObj) : bool :=
  from_option (fun m => Js.includes m "429") false (message err)
  || from_option (fun m => Js.includes (Js.toLowerCase m) "quota") false (message err).

Section App.
(** The service the component imports, the presence of the API key and
    the identifier source. *)
Variable editStageImage : string -> string -> option string -> Api string.
Variable generateViewpointVariant : string -> string -> Api string.
Variable upscaleStageImage : string -> Api string.
Variable generateStageImage : StageConfig -> Api (list string).
Variable generateStageDescription : StageConfig -> Api DesignResponseSchema.
Variable apiKey : bool.
Variable randomUUID : nat -> string.
Variable Date_now : Z.

Definition updateDesignState (design : GeneratedDesign) (forceSave : bool)
    (sys : System) : System :=
  let sys1 := on_app (setCurrentDesign (Some design)) sys in
  if autoSave (app sys) || forceSave then
    match saveDesignToLibrary design (disk sys1) with
    | (inr updatedList, s') =>
        on_app (setSavedDesigns updatedList) (with_disk s' sys1)
    | (inl _, s') =>
        on_app (setError (Some "儲存失敗 (Save failed) - Storage might be full."))
               (with_disk s' sys1)
    end
  else sys1.

(** The body shared by [handleEditImage] and [handleViewpointChange]: the
    request, the branch of the history at the cursor, the error report. *)
Definition mutateImage (request : string -> Api string)
    (quotaText otherText : string) (sys : System) : System :=
  match currentDesign (app sys) with
  | None => sys
  | Some prev =>
      if negb (Js.truthy (imageUrl prev)) then sys
      else if negb apiKey then sys
      else
        let sys1 := on_app (setError None) (on_app (setIsEditingImage true) sys) in
        let sys2 :=
          match request (default "" (imageUrl prev)) (net sys1) with
          | (inr newImageUrl, w') =>
              let newHistory :=
                Js.slice0 (imageHistory prev) (historyIndex prev + 1)
                  ++ [newImageUrl] in
              let updatedDesign :=
                with_image (Some newImageUrl) newHistory
                  (Z.of_nat (length newHistory) - 1) prev in
              updateDesignState updatedDesign false (with_net w' sys1)
          | (inl (Obj err), w') =>
              on_app (setError (Some (if quotaMessage err then quotaText else otherText)))
                     (with_net w' sys1)
          | (inl Undefined, w') => with_net w' sys1
          end in
        on_app (setIsEditingImage false) sys2
  end.

Definition handleEditImage (instruction : string) (maskBase64 : option string)
    (sys : System) : System :=
  mutateImage (fun url => editStageImage url instruction maskBase64)
    "API 配額已滿，無法調整圖片。(API Quota Exceeded for Editing)"
    "圖片調整失敗，請稍後重試。(Failed to edit image)" sys.

Definition handleViewpointChange (newViewpoint : string) (sys : System) : System :=
  mutateImage (fun url => generateViewpointVariant url newViewpoint)
    "API 配額已滿，無法轉換視角。(API Quota Exceeded for Viewpoint)"
    "轉換視角失敗，請稍後重試。(Failed to change perspective)" sys.

Definition handleUndo (sys : System) : System :=
  match currentDesign (app sys) with
  | None => sys
  | Some cur =>
      if bool_decide (historyIndex cur <= 0) then sys
      else
        let newIndex := historyIndex cur - 1 in
        updateDesignState
          (with_image (Js.index (imageHistory cur) newIndex)
             (imageHistory cur) newIndex cur)
          false sys
  end.

Definition handleRedo (sys : System) : System :=
  match currentDesign (app sys) with
  | None => sys
  | Some cur =>
      if bool_decide (Z.of_nat (length (imageHistory cur)) - 1 <= historyIndex cur)
      then sys
      else
        let newIndex := historyIndex cur + 1 in
        updateDesignState
          (with_image (Js.index (imageHistory cur) newIndex)
             (imageHistory cur) newIndex cur)
          false sys
  end.

(** The design that [handleUpscale] works on: the library record whose
    image is the variant, else a fresh record built from the current
    design when the variant belongs to it. *)
Definition upscaleTarget (variantUrl : string) (sys : System)
  : option (GeneratedDesign * System) :=
  match List.find (fun d => bool_decide (imageUrl d = Some variantUrl))
                  (savedDesigns (app sys)) with
  | Some targetDesign => Some (targetDesign, sys)
  | None =>
      match currentDesign (app sys) with
      | Some cur =>
          if bool_decide (imageUrl cur = Some variantUrl)
             || from_option (fun vs => bool_decide (variantUrl ∈ vs)) false (variants cur)
          then
            Some ({| id := randomUUID (uuids sys);
                     imageUrl := Some variantUrl; videoUrl := videoUrl cur;
                     variants := Some []; imageHistory := [variantUrl];
                     historyIndex := 0; details := details cur;
                     timestamp := timestamp cur; folder := folder cur |},
                  {| app := app sys; net := net sys; disk := disk sys;
                     uuids := S (uuids sys) |})
          else None
      | None => None
      end
  end.

Definition handleUpscale (variantUrl : string) (sys : System) : System :=
  let sys0 := on_app (setIsEditingImage true) sys in
  match upscaleTarget variantUrl sys0 with
  | None =>
      on_app (setIsEditingImage false)
        (on_app (setError (Some "無法找到原始設計檔案 (Original design not found)")) sys0)
  | Some (targetDesign, sys1) =>
      let sys2 :=
        match upscaleStageImage variantUrl (net sys1) with
        | (inr upscaledUrl, w') =>
            updateDesignState
              (with_selection (Some upscaledUrl)
                 (imageHistory targetDesign ++ [upscaledUrl])
                 (Z.of_nat (length (imageHistory targetDesign))) targetDesign)
              false (with_net w' sys1)
        | (inl (Obj err), w') =>
            let sys' :=
              on_app (setError (Some
                (if quotaMessage err
                 then "API 配額已滿，無法放大圖片。(API Quota Exceeded for Upscaling)"
                 else "放大圖片失敗，請使用原圖。(Failed to upscale, falling back to original)")))
                (with_net w' sys1) in
            (* Ensure UI stays consistent even if upscale fails *)
            updateDesignState
              (with_selection (Some variantUrl) (imageHistory targetDesign)
                 (historyIndex targetDesign) targetDesign)
              false sys'
        | (inl Undefined, w') => with_net w' sys1
        end in
      on_app (setIsEditingImage false) sys2
  end.

(** [await Promise.all(newDesigns.map(d => saveDesignToLibrary(d)))]:
    the saves go to distinct ids of one store; one rejection rejects the
    whole. *)
Fixpoint saveAll (ds : list GeneratedDesign) (s : Storage) : (Thrown + unit) * Storage :=
  match ds with
  | [] => (inr tt, s)
  | d :: ds' =>
      match saveDesignToLibrary d s with
      | (inr _, s') => saveAll ds' s'
      | (inl t, s') => (inl t, s')
      end
  end.

(** The [catch] block of [handleGenerate]. *)
Definition reportGenerateFailure (t : Thrown) (sys : System) : System :=
  match t with
  | Undefined => sys
  | Obj err =>
      on_app (setError (Some
        (if quotaMessage err
         then "API 配額已滿，系統將自動重試但最終失敗。請稍後再試或減少生成張數。(API Quota Exceeded)"
         else "生成設計失敗。請確保您的 API Key 正確。(Failed to generate)"))) sys
  end.

Definition handleGenerate (sys : System) : System :=
  if negb apiKey then
    on_app (setError (Some "API Key is missing. Please set process.env.API_KEY.")) sys
  else
    let sys1 := on_app (setError None) (on_app (setIsGenerating true) sys) in
    let sys2 :=
      match generateStageImage (config (app sys)) (net sys1) with
      | (inl t, w1) => reportGenerateFailure t (with_net w1 sys1)
      | (inr images, w1) =>
          match generateStageDescription (config (app sys)) w1 with
          | (inl t, w2) => reportGenerateFailure t (with_net w2 sys1)
          | (inr textDetails, w2) =>
              let batchTimestamp := Date_now in
              let newDesigns :=
                imap (fun index img =>
                        {| id := randomUUID (uuids sys1 + index)%nat;
                           imageUrl := Some img; videoUrl := None;
                           variants := Some []; imageHistory := [img];
                           historyIndex := 0; details := textDetails;
                           timestamp := batchTimestamp + Z.of_nat index;
                           folder := Absent |}) images in
              let sys3 := {| app := app sys1; net := w2; disk := disk sys1;
                             uuids := (uuids sys1 + length images)%nat |} in
              let display :=
                on_app (setCurrentDesign
                          (if bool_decide (1 < length newDesigns)%nat
                           then with_variants (Some images) <$> head newDesigns
                           else head newDesigns)) in
              if autoSave (app sys) then
                match saveAll newDesigns (disk sys3) with
                | (inr _, s') =>
                    display (on_app (setSavedDesigns (getSavedDesigns s'))
                               (with_disk s' sys3))
                | (inl t, s') => reportGenerateFailure t (with_disk s' sys3)
                end
              else display sys3
          end
      end in
    on_app (setIsGenerating false) sys2.

End App.

(** The design that a successful edit or viewpoint change commits. *)
Definition branch (newImageUrl : string) (prev : GeneratedDesign) : GeneratedDesign :=
  let newHistory :=
    Js.slice0 (imageHistory prev) (historyIndex prev + 1) ++ [newImageUrl] in
  with_image (Some newImageUrl) newHistory (Z.of_nat (length newHistory) - 1) prev.

(** The user commands that act on the history of the current design. *)
Inductive Command :=
| Edit (instruction : string) (maskBase64 : option string)
| ChangeViewpoint (newViewpoint : string)
| Undo
| Redo.

Section Session.
Variable editStageImage : string -> string -> option string -> Api string.
Variable generateViewpointVariant : string -> string -> Api string.
Variable apiKey : bool.

Definition perform (c : Command) (sys : System) : System :=
  match c with
  | Edit instruction maskBase64 =>
      handleEditImage editStageImage apiKey instruction maskBase64 sys
  | ChangeViewpoint newViewpoint =>
      handleViewpointChange generateViewpointVariant apiKey newViewpoint sys
  | Undo => handleUndo sys
  | Redo => handleRedo sys
  end.

Definition run (cs : list Command) (sys : System) : System :=
  foldl (fun s c => perform c s) sys cs.
End Session.

(** The invariant of the data model: [0 <= cursor < len(history)]. *)
Definition cursor_in_range (sys : System) : Prop :=
  match currentDesign (app sys) with
  | None => True
  | Some d => 0 <= historyIndex d < Z.of_nat (length (imageHistory d))
  end.

(** ** Values used in the examples *)

(** Answers and errors used in the examples. *)
Definition oneImage (payload : string) : Response :=
  {| candidates :=
       Some [ {| finishReason := Some "STOP";
                 parts := Some [ {| inlineData := Some {| data := Some payload |} |} ] |} ];
     text := None |}.

Definition twoImages (p q : string) : Response :=
  {| candidates :=
       Some [ {| finishReason := Some "STOP";
                 parts := Some [ {| inlineData := Some {| data := Some p |} |};
                                 {| inlineData := None |};
                                 {| inlineData := Some {| data := Some q |} |} ] |} ];
     text := None |}.

Definition quotaError : ErrorObj :=
  {| message := Some "got status: 429 Too Many Requests"; status := Some 429 |}.

Definition serverError : ErrorObj :=
  {| message := Some "got status: 500 Internal Server Error"; status := Some 500 |}.

(** A small library used in the examples. *)
Definition noDetails : DesignResponseSchema :=
  {| conceptTitle := "Aurora"; description := ""; transformationSequence := "";
     technicalSpecs := {| lighting := ""; video := ""; specialEffects := "" |} |}.

Definition sampleDesign (key image : string) (stamp : Z) (f : Optional string)
  : GeneratedDesign :=
  {| id := key; imageUrl := Some image; videoUrl := None; variants := Some [];
     imageHistory := [image]; historyIndex := 0; details := noDetails;
     timestamp := stamp; folder := f |}.

Definition sampleStorage : Storage :=
  put (sampleDesign "d3" "img3" 30 Absent)
    (put (sampleDesign "d2" "img2" 20 (Given "草稿 (Drafts)"))
       (put (sampleDesign "d1" "img1" 10 (Given "最愛 (Favorites)"))
          {| db_available := true; designs := ∅; folders_slot := None |})).

(** A session used in the examples: a design with three history entries,
    the cursor on the last one, nothing saved, autosave off. *)
Definition sampleSession : System :=
  {| app := {| config := {| imageCount := 1 |};
               currentDesign :=
                 Some {| id := "d1"; imageUrl := Some "c"; videoUrl := None;
                         variants := Some []; imageHistory := ["a"; "b"; "c"];
                         historyIndex := 2; details := noDetails; timestamp := 10;
                         folder := Absent |};
               savedDesigns := []; autoSave := false; isGenerating := false;
               isEditingImage := false; error := None |};
     net := mkWorld 0 [];
     disk := {| db_available := true; designs := ∅; folders_slot := None |};
     uuids := 0 |}.

(** A session in selection mode: two candidates, generated while autosave
    was off, and autosave switched on since. *)
Definition selectionSession : System :=
  {| app := {| config := {| imageCount := 2 |};
               currentDesign :=
                 Some {| id := "d1"; imageUrl := Some "img1"; videoUrl := None;
                         variants := Some ["img1"; "img2"]; imageHistory := ["img1"];
                         historyIndex := 0; details := noDetails; timestamp := 10;
                         folder := Absent |};
               savedDesigns := []; autoSave := true; isGenerating := false;
               isEditingImage := false; error := None |};
     net := mkWorld 0 [];
     disk := {| db_available := true; designs := ∅; folders_slot := None |};
     uuids := 0 |}.

(** ** Helpers of the service: data URLs and elapsed sleep *)

(** [s.split(sep)] for a one-character separator. *)
Fixpoint js_split (sep : ascii) (s : string) : list string :=
  match s with
  | EmptyString => [EmptyString]
  | String c s' =>
      if bool_decide (c = sep) then EmptyString :: js_split sep s'
      else match js_split sep s' with
           | [] => [String c EmptyString]
           | h :: t => String c h :: t
           end
  end.

(** [extractBase64]: the text between the first and the second comma, or
    the whole string when there is no comma. *)
Definition extractBase64 (dataUrl : string) : string :=
  match js_split "," dataUrl with
  | _ :: p1 :: _ => p1
  | _ => dataUrl
  end.

(** A character of the class [[\w+.-]]. *)
Definition mimeChar (c : ascii) : bool :=
  let n := nat_of_ascii c in
  ((48 <=? n)%nat && (n <=? 57)%nat)        (* 0-9 *)
  || ((65 <=? n)%nat && (n <=? 90)%nat)     (* A-Z *)
  || ((97 <=? n)%nat && (n <=? 122)%nat)    (* a-z *)
  || (n =? 95)%nat || (n =? 43)%nat || (n =? 46)%nat || (n =? 45)%nat.

(** The longest prefix of class characters, and what follows it. *)
Fixpoint spanMime (s : string) : string * string :=
  match s with
  | EmptyString => (EmptyString, EmptyString)
  | String c s' =>
      if mimeChar c then let '(run, rest) := spanMime s' in (String c run, rest)
      else (EmptyString, s)
  end.

(** [s] without the prefix [p], when it has it. *)
Fixpoint stripPrefix (p s : string) : option string :=
  match p, s with
  | EmptyString, _ => Some s
  | String a p', String b s' => if bool_decide (a = b) then stripPrefix p' s' else None
  | String _ _, EmptyString => None
  end.

(** [getMimeType]: the first group of [/^data:(image\/[\w+.-]+);base64,/],
    ["image/png"] when the pattern does not match. The class excludes [;],
    so the greedy run is the only candidate for the group. *)
Definition getMimeType (dataUrl : string) : string :=
  match stripPrefix "data:image/" dataUrl with
  | Some t =>
      let '(run, rest) := spanMime t in
      match run, stripPrefix ";base64," rest with
      | String _ _, Some _ => "image/" +:+ run
      | _, _ => "image/png"
      end
  | None => "image/png"
  end.

(** The total time slept so far. *)
Definition slept (w : World) : Z := foldr Z.add 0 (waited w).

(** Every character of [s] satisfies [P]. *)
Fixpoint allChars (P : ascii -> bool) (s : string) : bool :=
  match s with
  | EmptyString => true
  | String c s' => P c && allChars P s'
  end.

Definition notComma (c : ascii) : bool := negb (bool_decide (c = ","%char)).

(** The images that the service hands out: PNG data URLs. *)
Definition pngDataUrl (url : string) : Prop :=
  exists payload, url = "data:image/png;base64," +:+ payload.

(** A list in non-increasing order of a numeric key (newest first). *)
Fixpoint descendingBy {A} (key : A -> Z) (l : list A) : Prop :=
  match l with
  | [] => True
  | x :: l' => Forall (fun y => key y <= key x) l' /\ descendingBy key l'
  end.

(** ** storageService: saved concepts *)

Module Concepts.

Record CreativeConcept := mkConcept {
  title : string;
  elements : string;
  colors : string;
  vibe : string;
  mechanics : string
}.

(** [SavedConcept extends CreativeConcept] *)
Record SavedConcept := mkSaved {
  concept : CreativeConcept;
  id : string;
  timestamp : Z
}.

(** [localStorage[CONCEPTS_KEY]]: [None] while the key is absent; the
    functions below are its only writers and store JSON arrays. *)
Definition Slot : Type := option (list SavedConcept).

Definition getSavedConcepts (slot : Slot) : list SavedConcept :=
  match slot with
  | None => []
  | Some concepts => sort_by (fun a b => bool_decide (timestamp b < timestamp a)) concepts
  end.

(** [uuid] and [now] are the values of [crypto.randomUUID()] and
    [Date.now()]. *)
Definition saveConcept (c : CreativeConcept) (uuid : string) (now : Z) (slot : Slot)
  : list SavedConcept * Slot :=
  let concepts := getSavedConcepts slot in
  let newConcept := {| concept := c; id := uuid; timestamp := now |} in
  let updated := newConcept :: concepts in
  (updated, Some updated).

Definition deleteConcept (conceptId : string) (slot : Slot) : list SavedConcept * Slot :=
  let concepts := filter (fun c => id c ≠ conceptId) (getSavedConcepts slot) in
  (concepts, Some concepts).

End Concepts.

(** ** The App component: library handlers *)

(** [{ ...details, conceptTitle }] *)
Definition with_title (t : string) (d : DesignResponseSchema) : DesignResponseSchema :=
  {| conceptTitle := t; description := description d;
     transformationSequence := transformationSequence d;
     technicalSpecs := technicalSpecs d |}.

Section AppLibrary.
Variable generateSimilarVariant : string -> Z -> Api (list string).
Variable apiKey : bool.
Variable randomUUID : nat -> string.
Variable Date_now : Z.

Definition handleManualSave (asCopy : bool) (sys : System) : System :=
  match currentDesign (app sys) with
  | None => sys
  | Some cur =>
      if asCopy then
        let designToSave :=
          {| id := randomUUID (uuids sys); imageUrl := imageUrl cur;
             videoUrl := videoUrl cur; variants := variants cur;
             imageHistory := imageHistory cur; historyIndex := historyIndex cur;
             details := with_title (conceptTitle (details cur) +:+ " (Copy)") (details cur);
             timestamp := Date_now; folder := folder cur |} in
        updateDesignState designToSave true
          {| app := app sys; net := net sys; disk := disk sys; uuids := S (uuids sys) |}
      else updateDesignState cur true sys
  end.

(** The [catch] block of [handleGenerateSimilar]. *)
Definition reportSimilarFailure (t : Thrown) (sys : System) : System :=
  match t with
  | Undefined => sys
  | Obj err =>
      on_app (setError (Some
        (if quotaMessage err
         then "API 配額已滿，生成相似圖片失敗。(API Quota Exceeded for Variants)"
         else "生成相似圖片失敗 (Failed to generate similar variant)"))) sys
  end.

(** The records that [handleGenerateSimilar] builds from the images. *)
Definition similarDesigns (cur : GeneratedDesign) (first : nat) (images : list string)
  : list GeneratedDesign :=
  imap (fun index img =>
          {| id := randomUUID (first + index)%nat;
             imageUrl := Some img; videoUrl := videoUrl cur;
             variants := Some []; imageHistory := [img]; historyIndex := 0;
             details :=
               with_title (conceptTitle (details cur) +:+ " (Variant "
                             +:+ pretty (index + 1)%nat +:+ ")") (details cur);
             timestamp := Date_now + Z.of_nat index;
             folder := Undef |}) images.

Definition handleGenerateSimilar (sys : System) : System :=
  match currentDesign (app sys) with
  | None => sys
  | Some cur =>
      if negb (Js.truthy (imageUrl cur)) then sys
      else if negb apiKey then sys
      else
        let sys1 := on_app (setError None) (on_app (setIsGenerating true) sys) in
        let sys2 :=
          match generateSimilarVariant (default "" (imageUrl cur))
                  (imageCount (config (app sys))) (net sys1) with
          | (inl t, w1) => reportSimilarFailure t (with_net w1 sys1)
          | (inr images, w1) =>
              let newDesigns := similarDesigns cur (uuids sys1) images in
              let sys3 := {| app := app sys1; net := w1; disk := disk sys1;
                             uuids := (uuids sys1 + length images)%nat |} in
              let display :=
                on_app (setCurrentDesign
                          (if bool_decide (1 < length newDesigns)%nat
                           then with_variants (Some images) <$> head newDesigns
                           else head newDesigns)) in
              if autoSave (app sys) then
                match saveAll newDesigns (disk sys3) with
                | (inr _, s') =>
                    display (on_app (setSavedDesigns (getSavedDesigns s'))
                               (with_disk s' sys3))
                | (inl t, s') => reportSimilarFailure t (with_disk s' sys3)
                end
              else display sys3
          end in
        on_app (setIsGenerating false) sys2
  end.

Definition handleDeleteDesign (designId : string) (sys : System) : System :=
  let '(newList, s') := deleteDesignFromLibrary designId (disk sys) in
  let sys1 := on_app (setSavedDesigns newList) (with_disk s' sys) in
  match currentDesign (app sys) with
  | Some cur =>
      if bool_decide (id cur = designId) then on_app (setCurrentDesign None) sys1
      else sys1
  | None => sys1
  end.

Definition handleUpdateDesignFolder (designId : string) (folderName : option string)
    (sys : System) : System :=
  let '(newList, s') := moveDesignToFolder designId folderName (disk sys) in
  let sys1 := on_app (setSavedDesigns newList) (with_disk s' sys) in
  match currentDesign (app sys) with
  | Some cur =>
      if bool_decide (id cur = designId) then
        match List.find (fun d => bool_decide (id d = designId)) newList with
        | Some updated => on_app (setCurrentDesign (Some updated)) sys1
        | None => sys1
        end
      else sys1
  | None => sys1
  end.

Definition handleDeleteFolderWithSync (folderName : string) (sys : System) : System :=
  let '(_, s') := deleteFolder folderName (disk sys) in
  on_app (setSavedDesigns (getSavedDesigns s')) (with_disk s' sys).

Definition handleSelectDesign (design : GeneratedDesign) (sys : System) : System :=
  on_app (setCurrentDesign (Some design)) sys.

End AppLibrary.

(** A design as the data model wants it: the cursor is inside the history
    and the image is the entry under the cursor. *)
Definition well_formed (d : GeneratedDesign) : Prop :=
  0 <= historyIndex d < Z.of_nat (length (imageHistory d))
  /\ imageUrl d = Js.index (imageHistory d) (historyIndex d).

(** Every design of the system is well formed: the current one, the ones of
    the in-memory library list and the stored ones. *)
Definition all_well_formed (sys : System) : Prop :=
  (forall d, currentDesign (app sys) = Some d -> well_formed d)
  /\ Forall well_formed (savedDesigns (app sys))
  /\ map_Forall (fun _ d => well_formed d) (designs (disk sys)).

(** What a user can do, with the library drawer showing [savedDesigns]. *)
Inductive Action :=
| Generate
| GenerateSimilar
| EditImage (instruction : string) (maskBase64 : option string)
| ViewpointChange (newViewpoint : string)
| Upscale (variantUrl : string)
| UndoImage
| RedoImage
| ManualSave (asCopy : bool)
| DeleteDesign (designId : string)
| UpdateDesignFolder (designId : string) (folderName : option string)
| DeleteFolder (folderName : string)
| SelectDesign (position : nat).

Section Actions.
Variable editStageImage : string -> string -> option string -> Api string.
Variable generateViewpointVariant : string -> string -> Api string.
Variable upscaleStageImage : string -> Api string.
Variable generateStageImage : StageConfig -> Api (list string).
Variable generateStageDescription : StageConfig -> Api DesignResponseSchema.
Variable generateSimilarVariant : string -> Z -> Api (list string).
Variable apiKey : bool.
Variable randomUUID : nat -> string.
Variable Date_now : Z.

Definition act (a : Action) (sys : System) : System :=
  match a with
  | Generate =>
      handleGenerate generateStageImage generateStageDescription apiKey randomUUID
        Date_now sys
  | GenerateSimilar =>
      handleGenerateSimilar generateSimilarVariant apiKey randomUUID Date_now sys
  | EditImage instruction maskBase64 =>
      handleEditImage editStageImage apiKey instruction maskBase64 sys
  | ViewpointChange newViewpoint =>
      handleViewpointChange generateViewpointVariant apiKey newViewpoint sys
  | Upscale variantUrl => handleUpscale upscaleStageImage randomUUID variantUrl sys
  | UndoImage => handleUndo sys
  | RedoImage => handleRedo sys
  | ManualSave asCopy => handleManualSave randomUUID Date_now asCopy sys
  | DeleteDesign designId => handleDeleteDesign designId sys
  | UpdateDesignFolder designId folderName =>
      handleUpdateDesignFolder designId folderName sys
  | DeleteFolder folderName => handleDeleteFolderWithSync folderName sys
  | SelectDesign position =>
      match savedDesigns (app sys) !! position with
      | Some design => handleSelectDesign design sys
      | None => sys
      end
  end.

Definition session (actions : list Action) (sys : System) : System :=
  foldl (fun s a => act a s) sys actions.
End Actions.

(** ** The idea generator *)

(** [generateCreativeConcepts] of the first copy of the service: the
    parsed ideas, and an empty list on any failure. [JSON_parse] stands for
    [JSON.parse(text) as CreativeConcept[]]; [None] is a SyntaxError. The
    random choice of themes only feeds the prompt. *)
Module Ideas1.
Section WithOracle.
Variable api : Oracle.
Variable JSON_parse : string -> option (list Concepts.CreativeConcept).

Definition generateCreativeConcepts : Api (list Concepts.CreativeConcept) :=
  try_catch
    (response <- Gemini1.retryWithBackoff (generateContent api) 3 2000 ;;
     if Js.truthy (text response) then
       match JSON_parse (default "" (text response)) with
       | Some ideas => ret ideas
       | None => throw (newError "Unexpected token in JSON")
       end
     else ret [])%api
    (fun _ => ret []).
End WithOracle.
End Ideas1.

(** * Properties *)

(** ** RetryPolicy *)

Section RetryFacts.
Context {T : Type}.
Variable isQuotaError : ErrorObj -> bool.

(** A first failure that is not classified as a quota error leaves the
    loop at once, in the world the operation left behind. *)
Lemma retry_loop_other_error (operation : Api T) retries d fuel i last w e w1 :
  operation w = (inl (Obj e), w1) ->
  isQuotaError e = false ->
  retry_loop isQuotaError operation retries d (S fuel) i last w = (inl (Obj e), w1).
Proof.
  intros Hop Hq. simpl. rewrite Hop, Hq. reflexivity.
Qed.

(** [k] quota failures followed by a success, with enough retries left:
    the loop sleeps [d * 2^i], [d * 2^(i+1)], ... and returns the value. *)
Lemma retry_loop_quota_prefix (api : nat -> ErrorObj + T) (call : Api T)
    retries d v k :
  (forall w, call w =
     (match api (calls w) with inl e => inl (Obj e) | inr r => inr r end,
      {| calls := S (calls w); waited := waited w |})) ->
  forall fuel i last w,
    (k < fuel)%nat ->
    Z.of_nat i + Z.of_nat k <= Z.of_nat retries - 1 ->
    (forall j, (j < k)%nat ->
       exists e, api (calls w + j)%nat = inl e /\ isQuotaError e = true) ->
    api (calls w + k)%nat = inr v ->
    retry_loop isQuotaError call retries d fuel i last w
    = (inr v,
       {| calls := (calls w + k + 1)%nat;
          waited := waited w ++ map (fun j => d * 2 ^ Z.of_nat j) (seq i k) |}).
Proof.
  intros Hcall. induction k as [|k IH]; intros fuel i last w Hfuel Hi Hfail Hok.
  - destruct fuel as [|fuel]; [lia|]. simpl.
    rewrite Hcall. rewrite Nat.add_0_r in Hok. rewrite Hok.
    rewrite app_nil_r. do 2 f_equal. lia.
  - destruct fuel as [|fuel]; [lia|]. simpl.
    rewrite Hcall.
    destruct (Hfail 0%nat) as (e & He & Hq); [lia|].
    rewrite Nat.add_0_r in He. rewrite He, Hq.
    rewrite bool_decide_true by lia. simpl.
    rewrite (IH fuel (S i) (Obj e)); simpl.
    + f_equal. f_equal; [lia|]. rewrite <- app_assoc. reflexivity.
    + lia.
    + lia.
    + intros j Hj. destruct (Hfail (S j)) as (e' & He' & Hq'); [lia|].
      exists e'. split; [|exact Hq'].
      rewrite <- He'. f_equal. lia.
    + rewrite <- Hok. f_equal. lia.
Qed.
End RetryFacts.

(** C7. An operation that fails twice with a quota error and succeeds on
    the third attempt: [retryWithBackoff] with three retries returns the
    success value after three requests, having slept [d * 2^0] before the
    second attempt and [d * 2^1] before the third, [d * (2^0 + 2^1)] in
    total. *)
Theorem retryWithBackoff_third_attempt_succeeds
    (api : Oracle) (w : World) (d : Z) (e1 e2 : ErrorObj) (v : Response) :
  api (calls w) = inl e1 -> Gemini1.isQuotaError e1 = true ->
  api (S (calls w)) = inl e2 -> Gemini1.isQuotaError e2 = true ->
  api (S (S (calls w))) = inr v ->
  exists w',
    Gemini1.retryWithBackoff (generateContent api) 3 d w = (inr v, w')
    /\ calls w' = (calls w + 3)%nat
    /\ waited w' = waited w ++ [d * 2 ^ 0; d * 2 ^ 1]
    /\ foldr Z.add 0 (drop (length (waited w)) (waited w'))
       = d * (2 ^ 0 + 2 ^ 1).
Proof.
  intros H1 Hq1 H2 Hq2 H3.
  eexists. split; [|split; [|split]].
  - unfold Gemini1.retryWithBackoff, retryWithBackoff_with.
    apply (retry_loop_quota_prefix Gemini1.isQuotaError api (generateContent api)
             3 d v 2).
    + reflexivity.
    + lia.
    + lia.
    + intros j Hj. destruct j as [|[|j]]; [| |lia].
      * exists e1. rewrite Nat.add_0_r. auto.
      * exists e2. replace (calls w + 1)%nat with (S (calls w)) by lia. auto.
    + replace (calls w + 2)%nat with (S (S (calls w))) by lia. exact H3.
  - simpl. lia.
  - reflexivity.
  - simpl. rewrite drop_app_length. simpl. lia.
Qed.

(** C8. An operation whose first failure does not match the quota
    signature: [retryWithBackoff] propagates that error from the world the
    first attempt left behind, whatever the number of retries; with the
    remote request as the operation, exactly one request was sent and
    nothing was slept. *)
Theorem retryWithBackoff_fails_fast
    (T : Type) (operation : Api T) (api : Oracle)
    (retries : nat) (d : Z) (w w1 : World) (e : ErrorObj) :
  (0 < retries)%nat ->
  Gemini1.isQuotaError e = false ->
  (operation w = (inl (Obj e), w1) ->
   Gemini1.retryWithBackoff operation retries d w = (inl (Obj e), w1))
  /\ (api (calls w) = inl e ->
      Gemini1.retryWithBackoff (generateContent api) retries d w
      = (inl (Obj e), {| calls := S (calls w); waited := waited w |})).
Proof.
  intros Hr Hq. destruct retries as [|fuel]; [lia|].
  split; intros Hop.
  - apply retry_loop_other_error; assumption.
  - apply retry_loop_other_error; [|assumption].
    unfold generateContent. rewrite Hop. reflexivity.
Qed.

Lemma retryWithBackoff_third_attempt_succeeds_witness :
  let quota := {| message := Some "429 RESOURCE_EXHAUSTED"; status := Some 429 |} in
  let image := {| candidates := None; text := Some "ok" |} in
  let api : Oracle := fun k => if (k <? 2)%nat then inl quota else inr image in
  exists w',
    Gemini1.retryWithBackoff (generateContent api) 3 2000 (mkWorld 0 []) = (inr image, w')
    /\ calls w' = 3%nat
    /\ waited w' = [2000; 4000]
    /\ foldr Z.add 0 (drop 0 (waited w')) = 6000.
Proof.
  intros quota image api.
  apply (retryWithBackoff_third_attempt_succeeds api (mkWorld 0 []) 2000 quota quota image);
    reflexivity.
Defined.

Lemma retryWithBackoff_fails_fast_witness :
  let denied := {| message := Some "API key not valid"; status := Some 400 |} in
  let api : Oracle := fun _ => inl denied in
  Gemini1.retryWithBackoff (generateContent api) 3 2000 (mkWorld 0 [])
  = (inl (Obj denied), mkWorld 1 []).
Proof.
  intros denied api.
  apply (retryWithBackoff_fails_fast Response (generateContent api) api 3 2000
           (mkWorld 0 []) (mkWorld 1 []) denied); [lia | reflexivity | reflexivity].
Defined.

(** ** The remote request under the retry policy *)

Section RequestFacts.
Variable isQuotaError : ErrorObj -> bool.
Variable api : Oracle.
Variables (retries : nat) (d : Z).

(** A wrapped request either returns an answer of the oracle or throws an
    error object of the oracle; [lastError] only surfaces when no attempt
    is made at all. *)
Lemma retry_loop_outcome fuel : forall i last w,
  match retry_loop isQuotaError (generateContent api) retries d fuel i last w with
  | (inr r, _) => exists k, api k = inr r
  | (inl t, _) => (fuel = 0%nat /\ t = last) \/ exists e k, t = Obj e /\ api k = inl e
  end.
Proof.
  induction fuel as [|fuel IH]; intros i last w; simpl.
  - left. auto.
  - unfold generateContent at 1. destruct (api (calls w)) as [e|r] eqn:Hk.
    + destruct (isQuotaError e && _).
      * specialize (IH (S i) (Obj e) (wait (d * 2 ^ Z.of_nat i)
                      {| calls := S (calls w); waited := waited w |}).2).
        destruct (retry_loop _ _ _ _ fuel (S i) (Obj e) _) as [[t|r] w'].
        -- right. destruct IH as [[_ ->]|IH]; eauto.
        -- exact IH.
      * right. eauto.
    + eauto.
Qed.
End RequestFacts.

Lemma request1_outcome (api : Oracle) (w : World) :
  match Gemini1.retryWithBackoff (generateContent api) 3 2000 w with
  | (inr r, _) => exists k, api k = inr r
  | (inl t, _) => exists e, t = Obj e
  end.
Proof.
  pose proof (retry_loop_outcome Gemini1.isQuotaError api 3 2000 3 0 Undefined w) as H.
  unfold Gemini1.retryWithBackoff, retryWithBackoff_with.
  destruct (retry_loop _ _ _ _ _ _ _ _) as [[t|r] w']; [|exact H].
  destruct H as [[? _]|(e & k & -> & _)]; [lia | eauto].
Qed.

Lemma attempt1_unfold (api : Oracle) (i : nat) (w : World) :
  Service1.attempt api i w
  = Gemini1.retryWithBackoff (generateContent api) 3 2000
      (if bool_decide (0 < i)%nat then (wait 1000 w).2 else w).
Proof.
  unfold Service1.attempt, bind. case_bool_decide; reflexivity.
Qed.

Lemma attempt1_outcome (api : Oracle) (i : nat) (w : World) :
  match Service1.attempt api i w with
  | (inr r, _) => exists k, api k = inr r
  | (inl t, _) => exists e, t = Obj e
  end.
Proof. rewrite attempt1_unfold. apply request1_outcome. Qed.

(** ** BatchCoordinator *)

(** The loop of the first service always runs to its end or to a [break]:
    it returns the images collected so far followed by those of the later
    answers, and at most one image per remaining call when no answer
    carries more than one. *)
Lemma batch_loop1_total (api : Oracle) fuel : forall i images w,
  exists more w',
    Service1.batch_loop api fuel i images w = (inr (images ++ more), w')
    /\ ((forall k r, api k = inr r -> (length (inlineImages r) <= 1)%nat) ->
        (length more <= fuel)%nat).
Proof.
  induction fuel as [|fuel IH]; intros i images w; simpl.
  - exists [], w. rewrite app_nil_r. split; [reflexivity | simpl; lia].
  - pose proof (attempt1_outcome api i w) as Hout.
    destruct (Service1.attempt api i w) as [[t|r] w1].
    + destruct Hout as [e ->].
      destruct (Service1.quotaMessage e).
      * exists [], w1. rewrite app_nil_r. split; [reflexivity | simpl; lia].
      * destruct (IH (S i) images w1) as (more & w' & -> & Hlen).
        exists more, w'. split; [reflexivity|]. intros Hb. specialize (Hlen Hb). lia.
    + destruct Hout as [k Hk].
      destruct (IH (S i) (images ++ inlineImages r) w1) as (more & w' & -> & Hlen).
      exists (inlineImages r ++ more), w'. rewrite app_assoc. split; [reflexivity|].
      intros Hb. specialize (Hlen Hb). specialize (Hb k r Hk).
      rewrite length_app. lia.
Qed.

(** C5 (as amended). In the first service a per-call failure that is not a
    rate-limit failure leaves the batch running: the loop goes on with the
    next call and the images collected so far; a per-call failure whose
    message carries the quota marker ends the loop in the world of that
    failure, so no later call is attempted. In the second service every
    per-call failure ends the loop in that way. In both, the images
    collected so far are returned when there are any. *)
Theorem batch_failure_policy (api : Oracle) (fuel i : nat) (images : list string)
    (w w1 : World) :
  (forall e,
     Service1.attempt api i w = (inl (Obj e), w1) ->
     Gemini1.isQuotaError e = false ->
     Service1.batch_loop api (S fuel) i images w
     = Service1.batch_loop api fuel (S i) images w1)
  /\ (forall e,
        Service1.attempt api i w = (inl (Obj e), w1) ->
        Service1.quotaMessage e = true ->
        Service1.batch_loop api (S fuel) i images w = (inr images, w1))
  /\ (forall t,
        Service2.attempt api (if bool_decide (0 < i)%nat then (wait 1000 w).2 else w)
        = (inl t, w1) ->
        Service2.batch_loop api (S fuel) i images w = (inr images, w1))
  /\ (forall N,
        Service1.batch_loop api (Z.to_nat N) 0 [] w = (inr images, w1) ->
        images <> [] ->
        Service1.generateStageImage api {| imageCount := N |} w = (inr images, w1))
  /\ (forall N,
        Service2.batch_loop api (Z.to_nat N) 0 [] w = (inr images, w1) ->
        images <> [] ->
        Service2.generateStageImage api {| imageCount := N |} w = (inr images, w1)).
Proof.
  repeat split.
  - intros e Hat Hq. simpl. rewrite Hat.
    assert (Service1.quotaMessage e = false) as ->; [|reflexivity].
    unfold Gemini1.isQuotaError in Hq. unfold Service1.quotaMessage.
    apply orb_false_iff in Hq as [Hq _]. exact Hq.
  - intros e Hat Hq. simpl. rewrite Hat, Hq. reflexivity.
  - intros t Hat. cbn [Service2.batch_loop]. rewrite Hat. reflexivity.
  - intros N Hloop Hne.
    unfold Service1.generateStageImage, Service1.batch, bind. simpl. rewrite Hloop.
    destruct images; [congruence|]. reflexivity.
  - intros N Hloop Hne.
    unfold Service2.generateStageImage, bind. simpl. rewrite Hloop.
    destruct images; [congruence|]. reflexivity.
Qed.

Lemma batch_failure_policy_witness :
  let api_other : Oracle := fun k => if (k =? 0)%nat then inl serverError else inr (oneImage "B") in
  let api_quota : Oracle := fun k => if (k <? 3)%nat then inl quotaError else inr (oneImage "B") in
  Service1.batch_loop api_other 2 0 [] (mkWorld 0 [])
  = Service1.batch_loop api_other 1 1 [] (mkWorld 1 [])
  /\ Service1.batch_loop api_quota 2 0 [] (mkWorld 0 [])
     = (inr [], mkWorld 3 [2000; 4000])
  /\ Service2.batch_loop api_other 2 0 [] (mkWorld 0 []) = (inr [], mkWorld 1 [])
  /\ Service1.generateStageImage api_other {| imageCount := 2 |} (mkWorld 0 [])
     = (inr ["data:image/png;base64,B"], mkWorld 2 [1000])
  /\ Service2.generateStageImage (fun _ => inr (oneImage "B")) {| imageCount := 1 |} (mkWorld 0 [])
     = (inr ["data:image/png;base64,B"], mkWorld 1 []).
Proof.
  intros api_other api_quota.
  split; [|split; [|split; [|split]]].
  - apply (proj1 (batch_failure_policy api_other 1 0 [] (mkWorld 0 []) (mkWorld 1 []))
             serverError); reflexivity.
  - apply (proj1 (proj2 (batch_failure_policy api_quota 1 0 [] (mkWorld 0 [])
                           (mkWorld 3 [2000; 4000]))) quotaError); reflexivity.
  - apply (proj1 (proj2 (proj2 (batch_failure_policy api_other 1 0 [] (mkWorld 0 [])
                                  (mkWorld 1 [])))) (Obj serverError)); reflexivity.
  - apply (proj1 (proj2 (proj2 (proj2
             (batch_failure_policy api_other 0 0 ["data:image/png;base64,B"]
                (mkWorld 0 []) (mkWorld 2 [1000])))))); [reflexivity | discriminate].
  - apply (proj2 (proj2 (proj2 (proj2
             (batch_failure_policy (fun _ => inr (oneImage "B")) 0 0
                ["data:image/png;base64,B"] (mkWorld 0 []) (mkWorld 1 [])))))) with (N := 1);
      [reflexivity | discriminate].
Defined.

(** C5, as stated, fails on the second service: with two images requested
    and a first call that fails with a server error that is not a
    rate-limit error, the loop stops after that single request, although the
    second request would have produced an image. *)
Lemma batch_stops_on_any_failure_counterexample :
  let api : Oracle := fun k => if (k =? 0)%nat then inl serverError else inr (oneImage "B") in
  Gemini2.isQuotaError serverError = false
  /\ Service2.generateStageImage api {| imageCount := 2 |} (mkWorld 0 [])
     = (inl (newError "Failed to generate stage images."), mkWorld 1 [])
  /\ Service2.generateStageImage (fun k => api (S k)) {| imageCount := 1 |} (mkWorld 0 [])
     = (inr ["data:image/png;base64,B"], mkWorld 1 []).
Proof. repeat split. Qed.

(** The two scenarios of the specification, on the first service. *)
Example batch_three_second_fails_permanently :
  let api : Oracle := fun k =>
    match k with
    | 0%nat => inr (oneImage "A")
    | 1%nat => inl serverError
    | _ => inr (oneImage "C")
    end in
  Service1.generateStageImage api {| imageCount := 3 |} (mkWorld 0 [])
  = (inr ["data:image/png;base64,A"; "data:image/png;base64,C"],
     mkWorld 3 [1000; 1000]).
Proof. reflexivity. Qed.

Example batch_four_second_rate_limited :
  let api : Oracle := fun k =>
    match k with
    | 0%nat => inr (oneImage "A")
    | 1%nat | 2%nat | 3%nat => inl quotaError
    | _ => inr (oneImage "D")
    end in
  Service1.generateStageImage api {| imageCount := 4 |} (mkWorld 0 [])
  = (inr ["data:image/png;base64,A"], mkWorld 4 [1000; 2000; 4000]).
Proof. reflexivity. Qed.

(** C6 (as amended). A batch of the first service ([generateStageImage],
    [generateSimilarVariant]) raises an error exactly when its loop
    collected no image; otherwise it returns the collected images, at least
    one, and at most [N] of them when no answer carries more than one
    inline image. *)
Theorem batch_result (api : Oracle) (N : Z) (url : string) (w : World) :
  exists images w',
    Service1.batch_loop api (Z.to_nat N) 0 [] w = (inr images, w')
    /\ (images = [] ->
        Service1.generateStageImage api {| imageCount := N |} w
        = (inl (newError "No image generated (All attempts failed or Quota exceeded)"), w')
        /\ Service1.generateSimilarVariant api url N w
           = (inl (newError "No similar variant returned (All attempts failed or Quota exceeded)"), w'))
    /\ (images <> [] ->
        Service1.generateStageImage api {| imageCount := N |} w = (inr images, w')
        /\ Service1.generateSimilarVariant api url N w = (inr images, w')
        /\ (1 <= length images)%nat)
    /\ ((forall k r, api k = inr r -> (length (inlineImages r) <= 1)%nat) ->
        Z.of_nat (length images) <= Z.max N 0).
Proof.
  destruct (batch_loop1_total api (Z.to_nat N) 0 [] w) as (images & w' & Hloop & Hlen).
  simpl in Hloop. exists images, w'.
  unfold Service1.generateStageImage, Service1.generateSimilarVariant,
    Service1.batch, bind. simpl. rewrite Hloop.
  split; [reflexivity|]. split; [|split].
  - intros ->. split; reflexivity.
  - intros Hne. destruct images; [congruence|]. simpl.
    split; [reflexivity|]. split; [reflexivity | lia].
  - intros Hb. specialize (Hlen Hb). lia.
Qed.

Lemma batch_result_witness :
  let api : Oracle := fun k => if (k =? 1)%nat then inl serverError else inr (oneImage "A") in
  exists images w',
    Service1.batch_loop api 3 0 [] (mkWorld 0 []) = (inr images, w')
    /\ Service1.generateStageImage api {| imageCount := 3 |} (mkWorld 0 []) = (inr images, w')
    /\ (1 <= length images)%nat
    /\ Z.of_nat (length images) <= 3.
Proof.
  intros api.
  destruct (batch_result api 3 "data:image/png;base64,A" (mkWorld 0 []))
    as (images & w' & Hloop & _ & Hsome & Hbound).
  exists images, w'.
  assert (images <> []) as Hne.
  { intros ->. vm_compute in Hloop. discriminate. }
  destruct (Hsome Hne) as (Hgen & _ & Hone).
  split; [exact Hloop|]. split; [exact Hgen|]. split; [exact Hone|].
  apply Hbound. intros k r Hk. subst api. simpl in Hk.
  destruct (k =? 1)%nat; [discriminate|].
  injection Hk as <-. vm_compute. lia.
Defined.

(** C6, as stated, fails on the length bound: a single requested image whose
    answer carries two inline images yields a list of two. *)
Lemma batch_longer_than_count_counterexample :
  let api : Oracle := fun _ => inr (twoImages "A" "B") in
  Service1.generateStageImage api {| imageCount := 1 |} (mkWorld 0 [])
  = (inr ["data:image/png;base64,A"; "data:image/png;base64,B"], mkWorld 1 [])
  /\ ~ (Z.of_nat (length ["data:image/png;base64,A"; "data:image/png;base64,B"]) <= 1).
Proof. split; [reflexivity | simpl; lia]. Qed.

(** ** Metadata generation *)

Lemma description1_total (api : Oracle) JSON_parse (config : StageConfig) (w : World) :
  exists d w', Service1.generateStageDescription api JSON_parse config w = (inr d, w').
Proof.
  unfold Service1.generateStageDescription, try_catch, bind, ret, throw.
  destruct (Gemini1.retryWithBackoff _ _ _ w) as [[t|r] w1]; [eauto|].
  destruct (Js.truthy (text r)); [|eauto].
  destruct (JSON_parse _); eauto.
Qed.

Lemma description2_total (api : Oracle) JSON_parse (config : StageConfig) (w : World) :
  exists d w', Service2.generateStageDescription api JSON_parse config w = (inr d, w').
Proof.
  unfold Service2.generateStageDescription, try_catch, bind, ret, throw.
  destruct (Gemini2.retryWithBackoff _ _ _ w) as [[t|r] w1]; [eauto|].
  destruct (text r ≫= JSON_parse); eauto.
Qed.

Lemma saveAll_available (ds : list GeneratedDesign) : forall s,
  db_available s = true ->
  exists s', saveAll ds s = (inr tt, s') /\ db_available s' = true.
Proof.
  induction ds as [|d ds IH]; intros s Hdb; simpl; [eauto|].
  unfold saveDesignToLibrary. rewrite Hdb. apply IH. exact Hdb.
Qed.

(** With a metadata generator that never throws, a generation whose images
    arrived ends without an error banner and with a current design, as long
    as the library can be written when autosave asks for it. *)
Lemma handleGenerate_succeeds
    (generateStageImage : StageConfig -> Api (list string))
    (generateStageDescription : StageConfig -> Api DesignResponseSchema)
    (randomUUID : nat -> string) (now : Z) (sys : System) images w1 :
  (forall cfg w, exists d w', generateStageDescription cfg w = (inr d, w')) ->
  generateStageImage (config (app sys)) (net sys) = (inr images, w1) ->
  autoSave (app sys) = false \/ db_available (disk sys) = true ->
  let sys' := handleGenerate generateStageImage generateStageDescription true
                randomUUID now sys in
  error (app sys') = None
  /\ (images <> [] -> is_Some (currentDesign (app sys'))).
Proof.
  intros Htotal Himages Hsave. unfold handleGenerate. simpl.
  rewrite Himages.
  destruct (Htotal (config (app sys)) w1) as (d & w2 & ->).
  assert (forall (l : list GeneratedDesign) vs,
            l <> [] ->
            is_Some (if bool_decide (1 < length l)%nat
                     then with_variants vs <$> head l else head l)) as Hhead.
  { intros [|x l] vs Hne; [congruence|]. simpl. case_bool_decide; eauto. }
  assert (images <> [] ->
          imap (fun index img =>
                  {| id := randomUUID (uuids sys + index)%nat;
                     imageUrl := Some img; videoUrl := None; variants := Some [];
                     imageHistory := [img]; historyIndex := 0; details := d;
                     timestamp := now + Z.of_nat index; folder := Absent |}) images
          <> []) as Hne.
  { destruct images; [congruence | discriminate]. }
  destruct (autoSave (app sys)) eqn:Hauto.
  - destruct Hsave as [?|Hdb]; [discriminate|].
    edestruct saveAll_available as (s' & -> & _); [exact Hdb|].
    simpl. split; [reflexivity|]. intros Himg. apply Hhead, Hne, Himg.
  - simpl. split; [reflexivity|]. intros Himg. apply Hhead, Hne, Himg.
Qed.

(** C10. [generateStageDescription] always returns a record, in both
    services: whenever the wrapped text request throws (a rate-limit error
    after the retries or any other error), the result is the fixed
    placeholder of that service, whose technical specs are all "N/A".
    Hence a generation whose images arrived never ends in the error branch
    because of the text request. *)
Theorem generateStageDescription_never_throws
    (api : Oracle) (JSON_parse : string -> option DesignResponseSchema)
    (cfg : StageConfig) (w : World) :
  (exists d w', Service1.generateStageDescription api JSON_parse cfg w = (inr d, w'))
  /\ (exists d w', Service2.generateStageDescription api JSON_parse cfg w = (inr d, w'))
  /\ (forall t w1,
        Gemini1.retryWithBackoff (generateContent api) 3 2000 w = (inl t, w1) ->
        Service1.generateStageDescription api JSON_parse cfg w
        = (inr Service1.placeholder, w1))
  /\ (forall t w1,
        Gemini2.retryWithBackoff (generateContent api) 3 2000 w = (inl t, w1) ->
        Service2.generateStageDescription api JSON_parse cfg w
        = (inr Service2.placeholder, w1))
  /\ technicalSpecs Service1.placeholder
     = {| lighting := "N/A"; video := "N/A"; specialEffects := "N/A" |}
  /\ technicalSpecs Service2.placeholder
     = {| lighting := "N/A"; video := "N/A"; specialEffects := "N/A" |}
  /\ conceptTitle Service1.placeholder = "生成錯誤"
  /\ conceptTitle Service2.placeholder = "設計概念"
  /\ (forall randomUUID now sys images w1,
        net sys = w ->
        Service1.generateStageImage api (config (app sys)) w = (inr images, w1) ->
        autoSave (app sys) = false \/ db_available (disk sys) = true ->
        error (app (handleGenerate (Service1.generateStageImage api)
                      (Service1.generateStageDescription api JSON_parse) true
                      randomUUID now sys)) = None)
  /\ (forall randomUUID now sys images w1,
        net sys = w ->
        Service2.generateStageImage api (config (app sys)) w = (inr images, w1) ->
        autoSave (app sys) = false \/ db_available (disk sys) = true ->
        error (app (handleGenerate (Service2.generateStageImage api)
                      (Service2.generateStageDescription api JSON_parse) true
                      randomUUID now sys)) = None).
Proof.
  split; [apply description1_total|].
  split; [apply description2_total|].
  split; [|split].
  - intros t w1 H.
    unfold Service1.generateStageDescription, try_catch, bind. rewrite H. reflexivity.
  - intros t w1 H.
    unfold Service2.generateStageDescription, try_catch, bind. rewrite H. reflexivity.
  - do 4 (split; [reflexivity|]). split.
    + intros randomUUID now sys images w1 <- Himages Hsave.
      apply (handleGenerate_succeeds _ _ randomUUID now sys images w1);
        [apply description1_total | exact Himages | exact Hsave].
    + intros randomUUID now sys images w1 <- Himages Hsave.
      apply (handleGenerate_succeeds _ _ randomUUID now sys images w1);
        [apply description2_total | exact Himages | exact Hsave].
Qed.

Lemma generateStageDescription_never_throws_witness :
  let api : Oracle := fun _ => inl quotaError in
  let images_then_quota : Oracle :=
    fun k => if (k =? 0)%nat then inr (oneImage "A") else inl quotaError in
  Service1.generateStageDescription api (fun _ => None) {| imageCount := 1 |} (mkWorld 0 [])
  = (inr Service1.placeholder, mkWorld 3 [2000; 4000])
  /\ Service2.generateStageDescription api (fun _ => None) {| imageCount := 1 |} (mkWorld 0 [])
     = (inr Service2.placeholder, mkWorld 3 [2000; 4000])
  /\ error (app (handleGenerate (Service1.generateStageImage images_then_quota)
                   (Service1.generateStageDescription images_then_quota (fun _ => None))
                   true (fun _ => "uuid-1") 100 sampleSession)) = None.
Proof.
  intros api images_then_quota.
  destruct (generateStageDescription_never_throws api (fun _ => None)
              {| imageCount := 1 |} (mkWorld 0 [])) as (_ & _ & H1 & H2 & _).
  destruct (generateStageDescription_never_throws images_then_quota (fun _ => None)
              {| imageCount := 1 |} (mkWorld 0 []))
    as (_ & _ & _ & _ & _ & _ & _ & _ & Hgen & _).
  split; [|split].
  - apply (H1 (Obj quotaError)). reflexivity.
  - apply (H2 (Obj quotaError)). reflexivity.
  - apply (Hgen (fun _ => "uuid-1") 100 sampleSession
             ["data:image/png;base64,A"] (mkWorld 1 []));
      [reflexivity | reflexivity | left; reflexivity].
Defined.

(** C10, as stated, fails on the second copy of the service: when the text
    request fails, the record it returns is titled "設計概念" (design
    concept), which is not the error title "生成錯誤" (generation error) of
    the first copy and does not hold the word "錯誤" (error). *)
Lemma second_copy_placeholder_title_counterexample :
  let api : Oracle := fun _ => inl serverError in
  Service2.generateStageDescription api (fun _ => None) {| imageCount := 1 |}
    (mkWorld 0 [])
  = (inr Service2.placeholder, mkWorld 1 [])
  /\ conceptTitle Service2.placeholder = "設計概念"
  /\ conceptTitle Service2.placeholder <> conceptTitle Service1.placeholder
  /\ Js.includes (conceptTitle Service2.placeholder) "錯誤" = false
  /\ Js.includes (conceptTitle Service1.placeholder) "錯誤" = true.
Proof.
  split; [reflexivity|]. split; [reflexivity|].
  split; [discriminate|]. split; reflexivity.
Qed.

(** ** LibraryManager *)

Lemma insert_by_perm {A} (before : A -> A -> bool) (x : A) (l : list A) :
  insert_by before x l ≡ₚ x :: l.
Proof.
  induction l as [|y l IH]; simpl; [reflexivity|].
  destruct (before y x); [|reflexivity].
  rewrite IH. apply perm_swap.
Qed.

Lemma sort_by_perm {A} (before : A -> A -> bool) (l : list A) :
  sort_by before l ≡ₚ l.
Proof.
  induction l as [|x l IH]; simpl; [reflexivity|].
  rewrite insert_by_perm. rewrite IH. reflexivity.
Qed.

(** The library listing holds exactly the stored records. *)
Lemma elem_of_getSavedDesigns (s : Storage) (d : GeneratedDesign) :
  db_available s = true ->
  d ∈ getSavedDesigns s <-> exists k, designs s !! k = Some d.
Proof.
  intros Hdb. unfold getSavedDesigns, newestFirst, getAll. rewrite Hdb.
  rewrite sort_by_perm. rewrite sort_by_perm.
  rewrite list_elem_of_fmap. split.
  - intros ([k d'] & -> & Hin). exists k. apply elem_of_map_to_list in Hin. exact Hin.
  - intros (k & Hk). exists (k, d). split; [reflexivity|].
    apply elem_of_map_to_list. exact Hk.
Qed.

Lemma keyed_empty : keyed ∅.
Proof. apply map_Forall_empty. Qed.

Lemma keyed_put (design : GeneratedDesign) (s : Storage) :
  keyed (designs s) -> keyed (designs (put design s)).
Proof. intros H. apply map_Forall_insert_2; [reflexivity | exact H]. Qed.

(** The loop of [deleteFolder] on a finished transaction: the first [put]
    throws, so the storage is left as it was. *)
Lemma clearLoop_finished (folderName : string) (l : list GeneratedDesign)
    (st : Storage) :
  (clearLoop folderName Finished l st).2 = st.
Proof.
  induction l as [|d l IH]; cbn [clearLoop]; [reflexivity|].
  case_bool_decide; [reflexivity | exact IH].
Qed.

(** All that [deleteFolder] writes is the folder list. *)
Lemma deleteFolder_storage (folderName : string) (s : Storage) :
  (deleteFolder folderName s).2
  = setFolders (filter (fun f => f ≠ folderName) (getFolders s)) s.
Proof.
  unfold deleteFolder. destruct (db_available (setFolders _ s)); cbn [snd].
  - apply clearLoop_finished.
  - reflexivity.
Qed.

Lemma sampleStorage_keyed : keyed (designs sampleStorage).
Proof. repeat apply keyed_put. apply keyed_empty. Qed.

(** The same loop on a transaction that is still active does clear the
    folder: the records are left as they were only because the transaction
    has finished by the time the loop runs. *)
Remark clearLoop_active_sample :
  designs (clearLoop "最愛 (Favorites)" Active (getSavedDesigns sampleStorage)
             sampleStorage).2 !! "d1"
  = Some (sampleDesign "d1" "img1" 10 Undef).
Proof. reflexivity. Qed.

(** C9. What [deleteFolder name] does: it stores and returns the folder
    list without [name], so a later listing does not contain it, and it
    leaves every stored design exactly as it was. A design whose folder was
    [name] therefore keeps that folder, which is no longer listed: the
    folder is not cleared. *)
Theorem deleteFolder_keeps_folder_labels (folderName : string) (s : Storage) :
  let s' := (deleteFolder folderName s).2 in
  (deleteFolder folderName s).1 = getFolders s'
  /\ (folderName ∉ getFolders s')
  /\ designs s' = designs s
  /\ (forall k d, designs s !! k = Some d ->
                  read (folder d) = Some folderName ->
                  designs s' !! k = Some d
                  /\ designs s' !! k <> Some (with_folder Undef d)).
Proof.
  intros s'. subst s'. rewrite deleteFolder_storage.
  split; [|split; [|split]].
  - unfold deleteFolder. destruct (db_available (setFolders _ s)); reflexivity.
  - change (folderName ∉ filter (fun f => f ≠ folderName) (getFolders s)).
    rewrite list_elem_of_filter. tauto.
  - reflexivity.
  - intros k d Hk Hf. cbn [setFolders designs]. split; [exact Hk|].
    rewrite Hk. intros Heq. injection Heq as Heq.
    rewrite Heq in Hf. discriminate Hf.
Qed.

Lemma deleteFolder_keeps_folder_labels_witness :
  let s' := (deleteFolder "最愛 (Favorites)" sampleStorage).2 in
  getFolders s' = ["草稿 (Drafts)"]
  /\ designs s' !! "d1" = Some (sampleDesign "d1" "img1" 10 (Given "最愛 (Favorites)"))
  /\ designs s' !! "d1" <> Some (sampleDesign "d1" "img1" 10 Undef).
Proof.
  intros s'.
  destruct (deleteFolder_keeps_folder_labels "最愛 (Favorites)" sampleStorage)
    as (Hlist & _ & _ & Hkeep).
  destruct (Hkeep "d1" (sampleDesign "d1" "img1" 10 (Given "最愛 (Favorites)"))
              eq_refl eq_refl) as [Hsame Hnot].
  split; [|split].
  - fold s' in Hlist. rewrite <- Hlist. reflexivity.
  - exact Hsame.
  - exact Hnot.
Defined.

(** C4 (as amended). Saving a design whose id is already in the store keeps
    every field of the incoming record except [folder]: when the incoming
    folder reads as [undefined], whether the property is missing or
    explicitly set to [undefined], the stored folder is the previously
    stored one; when it is a name, that name is stored. *)
Theorem saveDesignToLibrary_preserves_folder
    (design old : GeneratedDesign) (s : Storage) :
  db_available s = true ->
  designs s !! id design = Some old ->
  exists stored,
    designs (saveDesignToLibrary design s).2 !! id design = Some stored
    /\ stored = with_folder (folder stored) design
    /\ (folder design = Absent -> read (folder stored) = read (folder old))
    /\ (folder design = Undef -> read (folder stored) = read (folder old))
    /\ (forall f, folder design = Given f -> read (folder stored) = Some f).
Proof.
  intros Hdb Hold. unfold saveDesignToLibrary. rewrite Hdb, Hold. cbn [snd].
  eexists. split; [apply lookup_insert_eq|]. simpl.
  split; [reflexivity|].
  split; [|split].
  - intros ->. simpl. destruct (read (folder old)); reflexivity.
  - intros ->. simpl. destruct (read (folder old)); reflexivity.
  - intros f ->. reflexivity.
Qed.

Lemma saveDesignToLibrary_preserves_folder_witness :
  exists stored,
    designs (saveDesignToLibrary (sampleDesign "d1" "img1" 10 Absent) sampleStorage).2
      !! "d1" = Some stored
    /\ read (folder stored) = Some "最愛 (Favorites)".
Proof.
  destruct (saveDesignToLibrary_preserves_folder
              (sampleDesign "d1" "img1" 10 Absent)
              (sampleDesign "d1" "img1" 10 (Given "最愛 (Favorites)"))
              sampleStorage eq_refl eq_refl)
    as (stored & Hstored & _ & Habsent & _).
  exists stored. split; [exact Hstored|].
  rewrite (Habsent eq_refl). reflexivity.
Defined.

(** C4, as stated, fails on its second half: a record saved with [folder]
    explicitly set to [undefined] keeps the folder stored before. *)
Lemma saveDesignToLibrary_explicit_none_counterexample :
  folder (sampleDesign "d1" "img1" 10 Undef) = Undef
  /\ designs (saveDesignToLibrary (sampleDesign "d1" "img1" 10 Undef) sampleStorage).2
       !! "d1"
     = Some (sampleDesign "d1" "img1" 10 (Given "最愛 (Favorites)"))
  /\ read (folder (sampleDesign "d1" "img1" 10 (Given "最愛 (Favorites)"))) <> None.
Proof. split; [reflexivity|]. split; [reflexivity | discriminate]. Qed.

(** ** DesignHistory *)

Lemma slice0_in_range {A} (xs : list A) (i : Z) :
  0 <= i -> Js.slice0 xs (i + 1) = take (Z.to_nat i + 1) xs.
Proof.
  intros Hi. unfold Js.slice0. rewrite bool_decide_false by lia.
  f_equal. lia.
Qed.

Lemma updateDesignState_current (design : GeneratedDesign) (forceSave : bool)
    (sys : System) :
  currentDesign (app (updateDesignState design forceSave sys)) = Some design.
Proof.
  unfold updateDesignState.
  destruct (autoSave (app sys) || forceSave); [|reflexivity].
  destruct (saveDesignToLibrary _ _) as [[t|l] s']; reflexivity.
Qed.

Section MutateFacts.
Variable apiKey : bool.
Variable request : string -> Api string.
Variables quotaText otherText : string.

Lemma mutateImage_success (sys : System) prev newImageUrl w' :
  currentDesign (app sys) = Some prev ->
  Js.truthy (imageUrl prev) = true ->
  apiKey = true ->
  request (default "" (imageUrl prev)) (net sys) = (inr newImageUrl, w') ->
  currentDesign (app (mutateImage apiKey request quotaText otherText sys))
  = Some (branch newImageUrl prev).
Proof.
  intros Hcur Htruthy Hkey Hreq. unfold mutateImage.
  rewrite Hcur, Htruthy, Hkey. simpl. rewrite Hreq. simpl.
  apply updateDesignState_current.
Qed.

(** A request that throws leaves the design, the library and the store
    untouched; only the request counters and the error banner move. *)
Lemma mutateImage_failure (sys : System) prev t w' :
  currentDesign (app sys) = Some prev ->
  request (default "" (imageUrl prev)) (net sys) = (inl t, w') ->
  let sys' := mutateImage apiKey request quotaText otherText sys in
  currentDesign (app sys') = currentDesign (app sys)
  /\ savedDesigns (app sys') = savedDesigns (app sys)
  /\ disk sys' = disk sys
  /\ uuids sys' = uuids sys.
Proof.
  intros Hcur Hreq. unfold mutateImage. rewrite Hcur.
  destruct (negb (Js.truthy (imageUrl prev))); [rewrite Hcur; auto|].
  destruct (negb apiKey); [rewrite Hcur; auto|].
  simpl. rewrite Hreq. destruct t; simpl; rewrite Hcur; auto.
Qed.

(** Every run of the handler either keeps the current design or commits a
    branch of it. *)
Lemma mutateImage_current (sys : System) :
  let sys' := mutateImage apiKey request quotaText otherText sys in
  currentDesign (app sys') = currentDesign (app sys)
  \/ exists prev newImageUrl,
       currentDesign (app sys) = Some prev
       /\ currentDesign (app sys') = Some (branch newImageUrl prev).
Proof.
  unfold mutateImage. destruct (currentDesign (app sys)) as [prev|] eqn:Hcur;
    [|left; exact Hcur].
  destruct (negb (Js.truthy (imageUrl prev))); [left; exact Hcur|].
  destruct (negb apiKey); [left; exact Hcur|].
  simpl. destruct (request _ _) as [[t|newImageUrl] w'].
  - left. destruct t; simpl; exact Hcur.
  - right. exists prev, newImageUrl. split; [reflexivity|].
    simpl. apply updateDesignState_current.
Qed.
End MutateFacts.

Lemma branch_in_range (newImageUrl : string) (prev : GeneratedDesign) :
  0 <= historyIndex (branch newImageUrl prev)
       < Z.of_nat (length (imageHistory (branch newImageUrl prev))).
Proof. unfold branch. simpl. rewrite length_app. simpl. lia. Qed.

Lemma branch_history (newImageUrl : string) (prev : GeneratedDesign) :
  0 <= historyIndex prev < Z.of_nat (length (imageHistory prev)) ->
  imageHistory (branch newImageUrl prev)
  = take (Z.to_nat (historyIndex prev) + 1) (imageHistory prev) ++ [newImageUrl]
  /\ historyIndex (branch newImageUrl prev) = historyIndex prev + 1
  /\ imageUrl (branch newImageUrl prev) = Some newImageUrl
  /\ Js.index (imageHistory (branch newImageUrl prev))
              (historyIndex (branch newImageUrl prev)) = Some newImageUrl.
Proof.
  intros Hr. unfold branch. simpl. rewrite slice0_in_range by lia.
  assert (length (take (Z.to_nat (historyIndex prev) + 1) (imageHistory prev))
          = (Z.to_nat (historyIndex prev) + 1)%nat) as Hlen.
  { rewrite length_take. lia. }
  split; [reflexivity|]. rewrite length_app, Hlen. simpl.
  split; [lia|]. split; [reflexivity|].
  unfold Js.index. rewrite bool_decide_true by lia.
  replace (Z.to_nat (Z.of_nat (Z.to_nat (historyIndex prev) + 1 + 1) - 1))
    with (length (take (Z.to_nat (historyIndex prev) + 1) (imageHistory prev)) + 0)%nat
    by (rewrite Hlen; lia).
  rewrite lookup_app_r by lia.
  replace (_ + 0 - _)%nat with 0%nat by lia. reflexivity.
Qed.

(** C1. A successful edit or viewpoint change on a design whose cursor is
    anywhere in its history keeps the entries at indices [0..cursor],
    appends the new image and moves the cursor to the new last index, where
    the new image is current. Concretely, from history [[a; b; c]] with
    cursor 2, undo followed by an edit that produces [d] gives history
    [[a; b; d]], cursor 2 and current image [d]. *)
Theorem edit_truncates_and_appends
    (editStageImage : string -> string -> option string -> Api string)
    (generateViewpointVariant : string -> string -> Api string)
    (sys : System) (prev : GeneratedDesign) (newImageUrl : string) (w' : World)
    (instruction newViewpoint : string) (maskBase64 : option string) :
  currentDesign (app sys) = Some prev ->
  Js.truthy (imageUrl prev) = true ->
  0 <= historyIndex prev < Z.of_nat (length (imageHistory prev)) ->
  (editStageImage (default "" (imageUrl prev)) instruction maskBase64 (net sys)
   = (inr newImageUrl, w') ->
   exists d,
     currentDesign (app (handleEditImage editStageImage true instruction maskBase64 sys))
     = Some d
     /\ imageHistory d
        = take (Z.to_nat (historyIndex prev) + 1) (imageHistory prev) ++ [newImageUrl]
     /\ historyIndex d = Z.of_nat (length (imageHistory d)) - 1
     /\ imageUrl d = Some newImageUrl
     /\ Js.index (imageHistory d) (historyIndex d) = Some newImageUrl)
  /\ (generateViewpointVariant (default "" (imageUrl prev)) newViewpoint (net sys)
      = (inr newImageUrl, w') ->
      exists d,
        currentDesign
          (app (handleViewpointChange generateViewpointVariant true newViewpoint sys))
        = Some d
        /\ imageHistory d
           = take (Z.to_nat (historyIndex prev) + 1) (imageHistory prev) ++ [newImageUrl]
        /\ historyIndex d = Z.of_nat (length (imageHistory d)) - 1
        /\ imageUrl d = Some newImageUrl
        /\ Js.index (imageHistory d) (historyIndex d) = Some newImageUrl)
  /\ (forall a b c,
        imageHistory prev = [a; b; c] -> historyIndex prev = 2 -> b <> "" ->
        editStageImage b instruction maskBase64 (net sys) = (inr newImageUrl, w') ->
        exists d,
          currentDesign
            (app (handleEditImage editStageImage true instruction maskBase64
                    (handleUndo sys)))
          = Some d
          /\ imageHistory d = [a; b; newImageUrl]
          /\ historyIndex d = 2
          /\ imageUrl d = Some newImageUrl).
Proof.
  intros Hcur Htruthy Hrange.
  assert (forall d, d = branch newImageUrl prev ->
            imageHistory d
            = take (Z.to_nat (historyIndex prev) + 1) (imageHistory prev) ++ [newImageUrl]
            /\ historyIndex d = Z.of_nat (length (imageHistory d)) - 1
            /\ imageUrl d = Some newImageUrl
            /\ Js.index (imageHistory d) (historyIndex d) = Some newImageUrl) as Hbranch.
  { intros d ->. destruct (branch_history newImageUrl prev Hrange) as (H1 & H2 & H3 & H4).
    split; [exact H1|]. split; [|split; [exact H3 | exact H4]].
    rewrite H2, H1, length_app, length_take. simpl. lia. }
  split; [|split].
  - intros Hreq. eexists. split; [|apply Hbranch; reflexivity].
    unfold handleEditImage.
    apply (mutateImage_success true _ _ _ sys prev newImageUrl w'); auto.
  - intros Hreq. eexists. split; [|apply Hbranch; reflexivity].
    unfold handleViewpointChange.
    apply (mutateImage_success true _ _ _ sys prev newImageUrl w'); auto.
  - intros a b c Hhist Hidx Hb Hreq.
    set (undone := with_image (Js.index (imageHistory prev) (historyIndex prev - 1))
                     (imageHistory prev) (historyIndex prev - 1) prev).
    assert (currentDesign (app (handleUndo sys)) = Some undone) as Hundo.
    { unfold handleUndo. rewrite Hcur. rewrite bool_decide_false by lia.
      apply updateDesignState_current. }
    assert (net (handleUndo sys) = net sys) as Hnet.
    { unfold handleUndo. rewrite Hcur. rewrite bool_decide_false by lia.
      unfold updateDesignState. destruct (autoSave (app sys) || false); [|reflexivity].
      destruct (saveDesignToLibrary _ _) as [[t|l] s']; reflexivity. }
    assert (imageUrl undone = Some b) as Hurl.
    { subst undone. simpl. rewrite Hhist, Hidx. reflexivity. }
    exists (branch newImageUrl undone). split.
    + unfold handleEditImage.
      apply (mutateImage_success true _ _ _ (handleUndo sys) undone newImageUrl w'); auto.
      * rewrite Hurl. destruct b; [congruence | reflexivity].
      * rewrite Hurl, Hnet. exact Hreq.
    + unfold branch, undone. simpl. rewrite Hhist, Hidx. simpl. auto.
Qed.

Lemma edit_truncates_and_appends_witness :
  let api : Oracle := fun _ => inr (oneImage "D") in
  exists d,
    currentDesign
      (app (handleEditImage (Service1.editStageImage api) true "more lasers" None
              (handleUndo sampleSession)))
    = Some d
    /\ imageHistory d = ["a"; "b"; "data:image/png;base64,D"]
    /\ historyIndex d = 2
    /\ imageUrl d = Some "data:image/png;base64,D".
Proof.
  intros api.
  refine (proj2 (proj2 (edit_truncates_and_appends
            (Service1.editStageImage api) (Service1.generateViewpointVariant api)
            sampleSession _ "data:image/png;base64,D" (mkWorld 1 [])
            "more lasers" "Side View" None eq_refl eq_refl _)) "a" "b" "c" eq_refl eq_refl _ eq_refl).
  - simpl. lia.
  - discriminate.
Defined.

Section HistoryInvariant.
Variable editStageImage : string -> string -> option string -> Api string.
Variable generateViewpointVariant : string -> string -> Api string.
Variable apiKey : bool.

Lemma mutateImage_in_range request quotaText otherText (sys : System) :
  cursor_in_range sys ->
  cursor_in_range (mutateImage apiKey request quotaText otherText sys).
Proof.
  intros Hinv. unfold cursor_in_range.
  destruct (mutateImage_current apiKey request quotaText otherText sys)
    as [->|(prev & newImageUrl & _ & ->)].
  - exact Hinv.
  - apply branch_in_range.
Qed.

Lemma handleUndo_in_range (sys : System) :
  cursor_in_range sys -> cursor_in_range (handleUndo sys).
Proof.
  intros Hinv. unfold handleUndo.
  destruct (currentDesign (app sys)) as [cur|] eqn:Hcur; [|exact Hinv].
  case_bool_decide as Hidx; [exact Hinv|].
  unfold cursor_in_range in *. rewrite updateDesignState_current.
  rewrite Hcur in Hinv. simpl. lia.
Qed.

Lemma handleRedo_in_range (sys : System) :
  cursor_in_range sys -> cursor_in_range (handleRedo sys).
Proof.
  intros Hinv. unfold handleRedo.
  destruct (currentDesign (app sys)) as [cur|] eqn:Hcur; [|exact Hinv].
  case_bool_decide as Hidx; [exact Hinv|].
  unfold cursor_in_range in *. rewrite updateDesignState_current.
  rewrite Hcur in Hinv. simpl. lia.
Qed.

Lemma perform_in_range (c : Command) (sys : System) :
  cursor_in_range sys ->
  cursor_in_range (perform editStageImage generateViewpointVariant apiKey c sys).
Proof.
  destruct c; simpl.
  - apply mutateImage_in_range.
  - apply mutateImage_in_range.
  - apply handleUndo_in_range.
  - apply handleRedo_in_range.
Qed.

Lemma run_in_range (cs : list Command) : forall sys,
  cursor_in_range sys ->
  cursor_in_range (run editStageImage generateViewpointVariant apiKey cs sys).
Proof.
  induction cs as [|c cs IH]; intros sys Hinv; simpl; [exact Hinv|].
  apply IH. apply perform_in_range. exact Hinv.
Qed.
End HistoryInvariant.

(** C2. Along every sequence of edits, viewpoint changes, undos and redos
    that starts from a design with [0 <= cursor < len(history)], the cursor
    stays within that range. Undo at cursor 0 and redo at the last index
    return the system unchanged; otherwise they move the cursor by one; in
    all cases they leave the contents of the history as they were. *)
Theorem history_cursor_invariant
    (editStageImage : string -> string -> option string -> Api string)
    (generateViewpointVariant : string -> string -> Api string)
    (apiKey : bool) (cs : list Command) (sys : System) (cur : GeneratedDesign) :
  currentDesign (app sys) = Some cur ->
  0 <= historyIndex cur < Z.of_nat (length (imageHistory cur)) ->
  cursor_in_range (run editStageImage generateViewpointVariant apiKey cs sys)
  /\ (historyIndex cur = 0 -> handleUndo sys = sys)
  /\ (historyIndex cur = Z.of_nat (length (imageHistory cur)) - 1 -> handleRedo sys = sys)
  /\ (exists d, currentDesign (app (handleUndo sys)) = Some d
                /\ imageHistory d = imageHistory cur
                /\ (0 < historyIndex cur -> historyIndex d = historyIndex cur - 1))
  /\ (exists d, currentDesign (app (handleRedo sys)) = Some d
                /\ imageHistory d = imageHistory cur
                /\ (historyIndex cur < Z.of_nat (length (imageHistory cur)) - 1 ->
                    historyIndex d = historyIndex cur + 1)).
Proof.
  intros Hcur Hrange. split; [|split; [|split; [|split]]].
  - apply run_in_range. unfold cursor_in_range. rewrite Hcur. exact Hrange.
  - intros H0. unfold handleUndo. rewrite Hcur.
    rewrite bool_decide_true by lia. reflexivity.
  - intros Hlast. unfold handleRedo. rewrite Hcur.
    rewrite bool_decide_true by lia. reflexivity.
  - unfold handleUndo. rewrite Hcur. case_bool_decide as Hidx.
    + exists cur. split; [exact Hcur|]. split; [reflexivity | lia].
    + eexists. split; [apply updateDesignState_current|]. simpl. auto.
  - unfold handleRedo. rewrite Hcur. case_bool_decide as Hidx.
    + exists cur. split; [exact Hcur|]. split; [reflexivity | lia].
    + eexists. split; [apply updateDesignState_current|]. simpl. auto.
Qed.

Lemma history_cursor_invariant_witness :
  let api : Oracle := fun k => if (k =? 0)%nat then inr (oneImage "D") else inl serverError in
  cursor_in_range
    (run (Service1.editStageImage api) (Service1.generateViewpointVariant api) true
       [Undo; Undo; Undo; Redo; Edit "more lasers" None; Redo;
        ChangeViewpoint "Side View"; Undo]
       sampleSession)
  /\ (exists d, currentDesign (app (handleUndo sampleSession)) = Some d
                /\ imageHistory d = ["a"; "b"; "c"]
                /\ (0 < 2 -> historyIndex d = 2 - 1))
  /\ handleRedo sampleSession = sampleSession.
Proof.
  intros api.
  destruct (history_cursor_invariant
              (Service1.editStageImage api) (Service1.generateViewpointVariant api) true
              [Undo; Undo; Undo; Redo; Edit "more lasers" None; Redo;
               ChangeViewpoint "Side View"; Undo]
              sampleSession _ eq_refl ltac:(simpl; lia))
    as (Hrun & _ & Hredo & Hundo & _).
  split; [exact Hrun|]. split; [exact Hundo|]. apply Hredo. reflexivity.
Defined.

(** ** SessionController: failed calls *)

Lemma updateDesignState_disk (design : GeneratedDesign) (sys : System) :
  disk (updateDesignState design false sys)
  = if autoSave (app sys) then (saveDesignToLibrary design (disk sys)).2 else disk sys.
Proof.
  unfold updateDesignState. rewrite orb_false_r.
  destruct (autoSave (app sys)); [|reflexivity]. simpl.
  destruct (saveDesignToLibrary design (disk sys)) as [[t|l] s']; reflexivity.
Qed.

Section UpscaleFacts.
Variable randomUUID : nat -> string.

(** The target does not depend on the busy flag, and finding it touches
    neither the requests nor the store. *)
Lemma upscaleTarget_busy (variantUrl : string) (sys : System) target sys1 :
  upscaleTarget randomUUID variantUrl sys = Some (target, sys1) ->
  upscaleTarget randomUUID variantUrl (on_app (setIsEditingImage true) sys)
  = Some (target, on_app (setIsEditingImage true) sys1)
  /\ net sys1 = net sys /\ disk sys1 = disk sys
  /\ autoSave (app sys1) = autoSave (app sys).
Proof.
  unfold upscaleTarget. simpl.
  destruct (List.find _ (savedDesigns (app sys))) as [found|].
  - intros [= <- <-]. auto.
  - destruct (currentDesign (app sys)) as [cur|]; [|discriminate].
    destruct (_ || _); [|discriminate].
    intros [= <- <-]. auto.
Qed.
End UpscaleFacts.

(** C3 (as amended). An edit or a viewpoint change whose request throws
    leaves the current design, the library list, the store and the
    identifier source exactly as they were. An upscale whose request throws
    an error appends nothing to the history of the design it targets and
    does not move its cursor, but it makes that target (with the selected
    variant as image and the candidates cleared) the current design, and
    under autosave with the database available it writes that record, and
    only that record, to the store. *)
Theorem failed_call_effects
    (editStageImage : string -> string -> option string -> Api string)
    (generateViewpointVariant : string -> string -> Api string)
    (upscaleStageImage : string -> Api string)
    (apiKey : bool) (randomUUID : nat -> string) (sys : System) :
  (forall prev instruction maskBase64 t w',
     currentDesign (app sys) = Some prev ->
     editStageImage (default "" (imageUrl prev)) instruction maskBase64 (net sys)
     = (inl t, w') ->
     let sys' := handleEditImage editStageImage apiKey instruction maskBase64 sys in
     currentDesign (app sys') = currentDesign (app sys)
     /\ savedDesigns (app sys') = savedDesigns (app sys)
     /\ disk sys' = disk sys
     /\ uuids sys' = uuids sys)
  /\ (forall prev newViewpoint t w',
        currentDesign (app sys) = Some prev ->
        generateViewpointVariant (default "" (imageUrl prev)) newViewpoint (net sys)
        = (inl t, w') ->
        let sys' := handleViewpointChange generateViewpointVariant apiKey newViewpoint sys in
        currentDesign (app sys') = currentDesign (app sys)
        /\ savedDesigns (app sys') = savedDesigns (app sys)
        /\ disk sys' = disk sys
        /\ uuids sys' = uuids sys)
  /\ (forall variantUrl target sys1 err w',
        upscaleTarget randomUUID variantUrl sys = Some (target, sys1) ->
        upscaleStageImage variantUrl (net sys) = (inl (Obj err), w') ->
        let sys' := handleUpscale upscaleStageImage randomUUID variantUrl sys in
        (exists d,
           currentDesign (app sys') = Some d
           /\ id d = id target
           /\ imageHistory d = imageHistory target
           /\ historyIndex d = historyIndex target
           /\ imageUrl d = Some variantUrl
           /\ variants d = Some [])
        /\ (autoSave (app sys) = false -> disk sys' = disk sys)
        /\ (autoSave (app sys) = true -> db_available (disk sys) = true ->
            (exists stored,
               designs (disk sys') !! id target = Some stored
               /\ imageHistory stored = imageHistory target
               /\ historyIndex stored = historyIndex target)
            /\ (forall k, k <> id target ->
                          designs (disk sys') !! k = designs (disk sys) !! k))).
Proof.
  split; [|split].
  - intros prev instruction maskBase64 t w' Hcur Hreq.
    apply (mutateImage_failure apiKey _ _ _ sys prev t w' Hcur Hreq).
  - intros prev newViewpoint t w' Hcur Hreq.
    apply (mutateImage_failure apiKey _ _ _ sys prev t w' Hcur Hreq).
  - intros variantUrl target sys1 err w' Htarget Hreq sys'.
    destruct (upscaleTarget_busy randomUUID variantUrl sys target sys1 Htarget)
      as (Hbusy & Hnet & Hdisk & Hauto).
    subst sys'. unfold handleUpscale. rewrite Hbusy.
    change (net (on_app (setIsEditingImage true) sys1)) with (net sys1).
    rewrite Hnet, Hreq.
    set (fallback := with_selection (Some variantUrl) (imageHistory target)
                       (historyIndex target) target).
    set (sysE := on_app (setError _) _).
    assert (autoSave (app sysE) = autoSave (app sys)) as HautoE by exact Hauto.
    assert (disk sysE = disk sys) as HdiskE by exact Hdisk.
    split; [|split].
    + exists fallback. split; [|subst fallback; simpl; auto].
      simpl. apply updateDesignState_current.
    + intros Hoff. change (disk (on_app (setIsEditingImage false) ?s)) with (disk s).
      rewrite updateDesignState_disk, HautoE, Hoff. exact HdiskE.
    + intros Hon Hdb. change (disk (on_app (setIsEditingImage false) ?s)) with (disk s).
      rewrite updateDesignState_disk, HautoE, Hon, HdiskE.
      unfold saveDesignToLibrary. rewrite Hdb. cbn [snd]. split.
      * eexists. split; [apply lookup_insert_eq|]. simpl. auto.
      * intros k Hk. simpl. apply lookup_insert_ne. simpl. congruence.
Qed.

Lemma failed_call_effects_witness :
  let api : Oracle := fun _ => inl serverError in
  let edited :=
    handleEditImage (Service1.editStageImage api) true "more lasers" None sampleSession in
  let upscaled :=
    handleUpscale (Service1.upscaleStageImage api) (fun _ => "uuid-1") "img2"
      selectionSession in
  (currentDesign (app edited) = currentDesign (app sampleSession)
   /\ savedDesigns (app edited) = savedDesigns (app sampleSession)
   /\ disk edited = disk sampleSession
   /\ uuids edited = uuids sampleSession)
  /\ (exists d,
        currentDesign (app upscaled) = Some d
        /\ id d = "uuid-1"
        /\ imageHistory d = ["img2"]
        /\ historyIndex d = 0
        /\ imageUrl d = Some "img2"
        /\ variants d = Some [])
  /\ (exists stored,
        designs (disk upscaled) !! "uuid-1" = Some stored
        /\ imageHistory stored = ["img2"]
        /\ historyIndex stored = 0).
Proof.
  intros api edited upscaled.
  destruct (failed_call_effects
              (Service1.editStageImage api) (Service1.generateViewpointVariant api)
              (Service1.upscaleStageImage api) true (fun _ => "uuid-1") sampleSession)
    as (Hedit & _ & _).
  destruct (failed_call_effects
              (Service1.editStageImage api) (Service1.generateViewpointVariant api)
              (Service1.upscaleStageImage api) true (fun _ => "uuid-1") selectionSession)
    as (_ & _ & Hup).
  pose proof (Hup "img2" _ _ serverError (mkWorld 1 []) eq_refl eq_refl)
    as (Hcur & _ & Hstore).
  split; [|split].
  - apply (Hedit _ "more lasers" None (Obj serverError) (mkWorld 1 []) eq_refl eq_refl).
  - exact Hcur.
  - destruct (Hstore eq_refl eq_refl) as [Hst _]. exact Hst.
Defined.

(** C3, as stated, fails for upscale: in selection mode with autosave on and
    the candidates not in the library, an upscale of the second candidate
    whose request fails replaces the current design by a record with a new
    id whose history is the selected candidate alone, and writes that
    record to the store. *)
Lemma failed_upscale_counterexample :
  let api : Oracle := fun _ => inl serverError in
  let sys' :=
    handleUpscale (Service1.upscaleStageImage api) (fun _ => "uuid-1") "img2"
      selectionSession in
  Service1.upscaleStageImage api "img2" (net selectionSession)
  = (inl (Obj serverError), mkWorld 1 [])
  /\ imageHistory <$> currentDesign (app selectionSession) = Some ["img1"]
  /\ imageHistory <$> currentDesign (app sys') = Some ["img2"]
  /\ id <$> currentDesign (app selectionSession) = Some "d1"
  /\ id <$> currentDesign (app sys') = Some "uuid-1"
  /\ designs (disk selectionSession) !! "uuid-1" = None
  /\ designs (disk sys') !! "uuid-1"
     = Some {| id := "uuid-1"; imageUrl := Some "img2"; videoUrl := None;
               variants := Some []; imageHistory := ["img2"]; historyIndex := 0;
               details := noDetails; timestamp := 10; folder := Undef |}.
Proof. repeat split. Qed.

(** * Further properties of the code *)

(** ** RetryPolicy: exhaustion and budget *)

Section RetryBudget.
Variable isQuotaError : ErrorObj -> bool.
Variable api : Oracle.
Variable retries : nat.
Variable d : Z.

(** Whatever the oracle answers, the loop sends at least one and at most
    [fuel] requests, and between two consecutive requests it sleeps once,
    [d * 2^i] before attempt [i + 1]. *)
Lemma retry_loop_budget fuel : forall i last w,
  (i + fuel = retries)%nat ->
  exists n,
    (n <= fuel)%nat /\ ((0 < fuel)%nat -> (1 <= n)%nat)
    /\ calls (retry_loop isQuotaError (generateContent api) retries d fuel i last w).2
       = (calls w + n)%nat
    /\ waited (retry_loop isQuotaError (generateContent api) retries d fuel i last w).2
       = waited w ++ map (fun j => d * 2 ^ Z.of_nat j) (seq i (n - 1)).
Proof.
  remember (generateContent api) as call eqn:Hcall.
  assert (forall w, call w =
            (match api (calls w) with inl e => inl (Obj e) | inr r => inr r end,
             {| calls := S (calls w); waited := waited w |})) as Hstep
    by (intros w; subst call; reflexivity).
  clear Hcall.
  induction fuel as [|fuel IH]; intros i last w Hsum; cbn [retry_loop].
  - exists 0%nat. simpl. rewrite app_nil_r. repeat split; lia.
  - rewrite Hstep. destruct (api (calls w)) as [e|r].
    + destruct (isQuotaError e && _) eqn:Hcond.
      * apply andb_true_iff in Hcond as [_ Hlt]. apply bool_decide_eq_true in Hlt.
        destruct (IH (S i) (Obj e)
                    {| calls := S (calls w);
                       waited := waited w ++ [d * 2 ^ Z.of_nat i] |})
          as (n & Hn & Hpos & Hcalls & Hwaits); [lia|].
        specialize (Hpos ltac:(lia)).
        exists (S n). cbn [wait snd calls waited]. rewrite Hcalls, Hwaits. simpl.
        split; [lia|]. split; [lia|]. split; [lia|].
        rewrite <- app_assoc. simpl. f_equal.
        replace (n - 0)%nat with (S (n - 1)) by lia. reflexivity.
      * exists 1%nat. simpl. rewrite app_nil_r. repeat split; lia.
    + exists 1%nat. simpl. rewrite app_nil_r. repeat split; lia.
Qed.

Lemma retry_loop_step {T} (operation : Api T) fuel i last w :
  retry_loop isQuotaError operation retries d (S fuel) i last w
  = match operation w with
    | (inr v, w1) => (inr v, w1)
    | (inl Undefined, w1) => (inl typeError, w1)
    | (inl (Obj error), w1) =>
        if isQuotaError error && bool_decide (Z.of_nat i < Z.of_nat retries - 1)
        then retry_loop isQuotaError operation retries d fuel (S i) (Obj error)
               (wait (d * 2 ^ Z.of_nat i) w1).2
        else (inl (Obj error), w1)
    end.
Proof. reflexivity. Qed.

(** When every attempt but the last fails with a quota error and the last
    one fails too, the loop gives up with the error of the last attempt. *)
Lemma retry_loop_exhausted fuel : forall i last w e,
  (i + S fuel = retries)%nat ->
  (forall j, (j < fuel)%nat ->
     exists e', api (calls w + j)%nat = inl e' /\ isQuotaError e' = true) ->
  api (calls w + fuel)%nat = inl e ->
  retry_loop isQuotaError (generateContent api) retries d (S fuel) i last w
  = (inl (Obj e),
     {| calls := (calls w + S fuel)%nat;
        waited := waited w ++ map (fun j => d * 2 ^ Z.of_nat j) (seq i fuel) |}).
Proof.
  induction fuel as [|fuel IH]; intros i last w e Hsum Hfail Hlast.
  - simpl. unfold generateContent. rewrite Nat.add_0_r in Hlast. rewrite Hlast.
    rewrite bool_decide_false by lia. rewrite andb_false_r, app_nil_r.
    do 2 f_equal. lia.
  - destruct (Hfail 0%nat) as (e0 & He0 & Hq0); [lia|].
    rewrite Nat.add_0_r in He0.
    rewrite retry_loop_step. unfold generateContent at 1. rewrite He0, Hq0.
    rewrite bool_decide_true by lia. cbn [andb].
    rewrite (IH (S i) (Obj e0) _ e); simpl.
    + f_equal. f_equal; [lia|]. rewrite <- app_assoc. reflexivity.
    + lia.
    + intros j Hj. destruct (Hfail (S j)) as (e' & He' & Hq'); [lia|].
      exists e'. split; [|exact Hq']. rewrite <- He'. f_equal. lia.
    + rewrite <- Hlast. f_equal. lia.
Qed.
End RetryBudget.

(** X1. Retries exhausted: with a budget of [retries + 1] attempts, when
    the first [retries] attempts fail with a quota error and the last
    attempt fails as well, [retryWithBackoff] throws the error of the last
    attempt after exactly [retries + 1] requests and [retries] sleeps of
    [d * 2^0, d * 2^1, ...]; with a budget of no attempts at all it throws
    [undefined] without sending anything. *)
Theorem retryWithBackoff_exhausted
    (api : Oracle) (retries : nat) (d : Z) (w : World) (e : ErrorObj) :
  (forall j, (j < retries)%nat ->
     exists e', api (calls w + j)%nat = inl e' /\ Gemini1.isQuotaError e' = true) ->
  api (calls w + retries)%nat = inl e ->
  Gemini1.retryWithBackoff (generateContent api) (S retries) d w
  = (inl (Obj e),
     {| calls := (calls w + S retries)%nat;
        waited := waited w ++ map (fun j => d * 2 ^ Z.of_nat j) (seq 0 retries) |})
  /\ Gemini1.retryWithBackoff (generateContent api) 0 d w = (inl Undefined, w).
Proof.
  intros Hfail Hlast. split; [|reflexivity].
  apply retry_loop_exhausted; [lia | exact Hfail | exact Hlast].
Qed.

Lemma retryWithBackoff_exhausted_witness :
  Gemini1.retryWithBackoff (generateContent (fun _ => inl quotaError)) 3 2000 (mkWorld 0 [])
  = (inl (Obj quotaError), mkWorld 3 [2000; 4000]).
Proof.
  apply (proj1 (retryWithBackoff_exhausted (fun _ => inl quotaError) 2 2000
                  (mkWorld 0 []) quotaError
                  (fun j _ => ex_intro _ quotaError (conj eq_refl eq_refl)) eq_refl)).
Defined.

(** X2. The budget of one wrapped request: whatever the remote answers,
    [retryWithBackoff] sends between one and [retries] requests, sleeps
    exactly once between two consecutive requests, [d * 2^i] after attempt
    [i], and never sleeps after its last request. *)
Theorem retryWithBackoff_budget
    (api : Oracle) (retries : nat) (d : Z) (w : World) :
  (0 < retries)%nat ->
  exists n,
    (1 <= n <= retries)%nat
    /\ calls (Gemini1.retryWithBackoff (generateContent api) retries d w).2
       = (calls w + n)%nat
    /\ waited (Gemini1.retryWithBackoff (generateContent api) retries d w).2
       = waited w ++ map (fun j => d * 2 ^ Z.of_nat j) (seq 0 (n - 1)).
Proof.
  intros Hpos.
  destruct (retry_loop_budget Gemini1.isQuotaError api retries d retries 0 Undefined w)
    as (n & Hn & Hone & Hcalls & Hwaits); [lia|].
  exists n. split; [split; [apply Hone; exact Hpos | exact Hn]|].
  split; [exact Hcalls | exact Hwaits].
Qed.

Lemma retryWithBackoff_budget_witness :
  exists n,
    (1 <= n <= 3)%nat
    /\ calls (Gemini1.retryWithBackoff
                (generateContent (fun k => if (k =? 0)%nat then inl quotaError
                                           else inr (oneImage "A")))
                3 2000 (mkWorld 0 [])).2 = (0 + n)%nat
    /\ waited (Gemini1.retryWithBackoff
                 (generateContent (fun k => if (k =? 0)%nat then inl quotaError
                                            else inr (oneImage "A")))
                 3 2000 (mkWorld 0 [])).2
       = [] ++ map (fun j => 2000 * 2 ^ Z.of_nat j) (seq 0 (n - 1)).
Proof.
  apply (retryWithBackoff_budget
           (fun k => if (k =? 0)%nat then inl quotaError else inr (oneImage "A"))
           3 2000 (mkWorld 0 [])).
  lia.
Defined.

(** ** The two error classifiers *)

Lemma prefix_toLowerCase (p s : string) :
  String.prefix p s = true ->
  String.prefix (Js.toLowerCase p) (Js.toLowerCase s) = true.
Proof.
  revert p. induction s as [|c s IH]; intros [|a p]; simpl; try congruence.
  destruct (ascii_dec a c) as [->|]; [|congruence].
  intros H. destruct (ascii_dec _ _); [auto | congruence].
Qed.

Lemma includes_toLowerCase (s sub : string) :
  Js.includes s sub = true ->
  Js.includes (Js.toLowerCase s) (Js.toLowerCase sub) = true.
Proof.
  induction s as [|c s IH]; cbn [Js.includes Js.toLowerCase].
  - rewrite !orb_false_r. intros H. apply (prefix_toLowerCase sub EmptyString H).
  - intros H. apply orb_true_iff in H as [H|H].
    + apply prefix_toLowerCase in H. cbn [Js.toLowerCase] in H.
      rewrite H. reflexivity.
    + rewrite (IH H). apply orb_true_r.
Qed.

(** X3. The classifier of the second copy of the service accepts every
    error that the classifier of the first copy accepts, so the second copy
    retries whenever the first does; it also accepts the message
    "Too Many Requests" in any letter case, which the first copy rejects
    when the status is not 429. *)
Theorem isQuotaError_second_copy_extends_first (error : ErrorObj) :
  (Gemini1.isQuotaError error = true -> Gemini2.isQuotaError error = true)
  /\ Gemini2.isQuotaError {| message := Some "Too Many Requests"; status := None |} = true
  /\ Gemini1.isQuotaError {| message := Some "Too Many Requests"; status := None |} = false.
Proof.
  split; [|split; reflexivity].
  unfold Gemini1.isQuotaError, Gemini2.isQuotaError.
  destruct error as [[m|] st]; cbn [from_option message status].
  - intros H. apply orb_true_iff in H as [H|H]; [apply orb_true_iff in H as [H|H]|].
    + apply includes_toLowerCase in H.
      change (Js.toLowerCase "429") with "429" in H.
      rewrite H. reflexivity.
    + rewrite H. rewrite orb_true_r. reflexivity.
    + rewrite H. rewrite !orb_true_r. reflexivity.
  - intros H. exact H.
Qed.

Lemma isQuotaError_second_copy_extends_first_witness :
  Gemini2.isQuotaError {| message := Some "Quota exceeded for model"; status := None |} = true.
Proof.
  apply (proj1 (isQuotaError_second_copy_extends_first
                  {| message := Some "Quota exceeded for model"; status := None |})).
  reflexivity.
Defined.

(** ** Data URLs *)

Lemma append_assoc (a b c : string) : (a +:+ b) +:+ c = a +:+ (b +:+ c).
Proof.
  induction a as [|x a IH]; [reflexivity|].
  change (String x ((a +:+ b) +:+ c) = String x (a +:+ (b +:+ c))).
  f_equal. exact IH.
Qed.

Lemma stripPrefix_app (p s : string) : stripPrefix p (p +:+ s) = Some s.
Proof.
  induction p as [|a p IH]; [destruct s; reflexivity|].
  change (String a p +:+ s) with (String a (p +:+ s)). cbn [stripPrefix].
  rewrite bool_decide_true by reflexivity. exact IH.
Qed.

Lemma allChars_app (P : ascii -> bool) (a b : string) :
  allChars P (a +:+ b) = allChars P a && allChars P b.
Proof.
  induction a as [|c a IH]; simpl; [reflexivity|].
  rewrite IH. apply andb_assoc.
Qed.

Lemma mimeChar_notComma (s : string) :
  allChars mimeChar s = true -> allChars notComma s = true.
Proof.
  induction s as [|c s IH]; simpl; [reflexivity|].
  intros H. apply andb_true_iff in H as [Hc Hs]. rewrite (IH Hs), andb_true_r.
  unfold notComma. case_bool_decide as Heq; [|reflexivity].
  subst c. vm_compute in Hc. discriminate.
Qed.

Lemma spanMime_run (run rest : string) :
  allChars mimeChar run = true ->
  spanMime (run +:+ String ";" rest) = (run, String ";" rest).
Proof.
  induction run as [|c run IH]; simpl; [reflexivity|].
  intros H. apply andb_true_iff in H as [-> Hs]. rewrite (IH Hs). reflexivity.
Qed.

Lemma js_split_no_comma (s : string) :
  allChars notComma s = true -> js_split "," s = [s].
Proof.
  induction s as [|c s IH]; cbn [js_split allChars]; [reflexivity|].
  intros H. apply andb_true_iff in H as [Hc Hs].
  unfold notComma in Hc. apply negb_true_iff, bool_decide_eq_false in Hc.
  rewrite bool_decide_false by exact Hc. rewrite (IH Hs). reflexivity.
Qed.

Lemma js_split_at_comma (a rest : string) :
  allChars notComma a = true ->
  js_split "," (a +:+ String "," rest) = a :: js_split "," rest.
Proof.
  induction a as [|c a IH].
  - intros _. change (EmptyString +:+ String "," rest) with (String "," rest).
    cbn [js_split]. rewrite bool_decide_true by reflexivity. reflexivity.
  - change (String c a +:+ String "," rest) with (String c (a +:+ String "," rest)).
    cbn [js_split allChars].
    intros H. apply andb_true_iff in H as [Hc Hs].
    unfold notComma in Hc. apply negb_true_iff, bool_decide_eq_false in Hc.
    rewrite bool_decide_false by exact Hc. rewrite (IH Hs). reflexivity.
Qed.

(** X4. Round trip of the data URL helpers: on a data URL
    [data:image/<subtype>;base64,<payload>] whose subtype is a non-empty
    run of the characters the pattern allows and whose payload holds no
    comma, [getMimeType] returns [image/<subtype>] and [extractBase64]
    returns the payload. A string without a comma is returned whole by
    [extractBase64], and a string that does not start with [data:image/]
    has the default type [image/png]. *)
Theorem dataUrl_round_trip (subtype payload other : string) :
  subtype <> EmptyString ->
  allChars mimeChar subtype = true ->
  allChars notComma payload = true ->
  getMimeType ("data:image/" +:+ subtype +:+ ";base64," +:+ payload)
  = "image/" +:+ subtype
  /\ extractBase64 ("data:image/" +:+ subtype +:+ ";base64," +:+ payload) = payload
  /\ (allChars notComma other = true -> extractBase64 other = other)
  /\ (stripPrefix "data:image/" other = None -> getMimeType other = "image/png").
Proof.
  intros Hne Hmime Hpayload. split; [|split; [|split]].
  - unfold getMimeType. rewrite stripPrefix_app.
    change (";base64," +:+ payload) with (String ";" ("base64," +:+ payload)).
    rewrite (spanMime_run subtype _ Hmime).
    destruct subtype as [|c subtype]; [congruence|].
    change (String ";" ("base64," +:+ payload)) with (";base64," +:+ payload).
    rewrite stripPrefix_app. reflexivity.
  - unfold extractBase64.
    assert (("data:image/" +:+ subtype +:+ ";base64," +:+ payload)
            = ("data:image/" +:+ subtype +:+ ";base64") +:+ String "," payload) as ->.
    { rewrite !append_assoc. reflexivity. }
    rewrite js_split_at_comma.
    + rewrite (js_split_no_comma payload Hpayload). reflexivity.
    + rewrite !allChars_app. rewrite (mimeChar_notComma subtype Hmime). reflexivity.
  - intros Hother. unfold extractBase64. rewrite (js_split_no_comma other Hother).
    reflexivity.
  - intros Hnone. unfold getMimeType. rewrite Hnone. reflexivity.
Qed.

Lemma dataUrl_round_trip_witness :
  getMimeType "data:image/svg+xml;base64,QUJD" = "image/svg+xml"
  /\ extractBase64 "data:image/svg+xml;base64,QUJD" = "QUJD"
  /\ extractBase64 "QUJD" = "QUJD"
  /\ getMimeType "https://example.org/a.jpg" = "image/png".
Proof.
  destruct (dataUrl_round_trip "svg+xml" "QUJD" "QUJD" ltac:(discriminate) eq_refl eq_refl)
    as (H1 & H2 & H3 & _).
  destruct (dataUrl_round_trip "svg+xml" "QUJD" "https://example.org/a.jpg"
              ltac:(discriminate) eq_refl eq_refl) as (_ & _ & _ & H4).
  split; [exact H1|]. split; [exact H2|]. split; [apply H3; reflexivity|].
  apply H4. reflexivity.
Defined.

(** ** Budgets and results of the batch generators *)

Lemma slept_app (c : nat) (l more : list Z) :
  slept {| calls := c; waited := l ++ more |}
  = slept {| calls := c; waited := l |} + foldr Z.add 0 more.
Proof.
  unfold slept. simpl. induction l as [|x l IH]; simpl; [lia|]. rewrite IH. lia.
Qed.

(** One wrapped request of either service costs at most three requests and
    at most 6000 ms of sleep. *)
Lemma request_budget (isQuotaError : ErrorObj -> bool) (api : Oracle) (w : World) :
  let w' := (retryWithBackoff_with isQuotaError (generateContent api) 3 2000 w).2 in
  (calls w < calls w' <= calls w + 3)%nat
  /\ slept w <= slept w' <= slept w + 6000.
Proof.
  intros w'.
  destruct (retry_loop_budget isQuotaError api 3 2000 3 0 Undefined w)
    as (n & Hn & Hone & Hcalls & Hwaits); [lia|].
  specialize (Hone ltac:(lia)). subst w'. unfold retryWithBackoff_with.
  destruct (retry_loop _ _ _ _ _ _ _ w).2 as [c' l']. simpl in Hcalls, Hwaits.
  split; [simpl; lia|]. subst l'.
  destruct w as [c l]. rewrite slept_app. simpl.
  change (slept {| calls := c; waited := l |}) with (slept {| calls := c'; waited := l |}).
  destruct n as [|[|[|[|n]]]]; try lia; simpl;
    change (2 ^ Z.of_nat 0) with 1; change (2 ^ Z.of_nat 1) with 2; lia.
Qed.

Lemma attempt1_budget (api : Oracle) (i : nat) (w : World) :
  let w' := (Service1.attempt api i w).2 in
  (calls w < calls w' <= calls w + 3)%nat
  /\ slept w <= slept w' <= slept w + 7000.
Proof.
  rewrite attempt1_unfold.
  pose proof (request_budget Gemini1.isQuotaError api
                (if bool_decide (0 < i)%nat then (wait 1000 w).2 else w)) as H.
  unfold Gemini1.retryWithBackoff. simpl in *.
  case_bool_decide; simpl in *.
  - destruct w as [c l]. simpl in *. rewrite slept_app in H. simpl in H.
    change (slept {| calls := c; waited := l |}) with (slept (mkWorld c l)) in *.
    lia.
  - lia.
Qed.

Lemma batch_loop1_budget (api : Oracle) fuel : forall i images w,
  let w' := (Service1.batch_loop api fuel i images w).2 in
  (calls w <= calls w' <= calls w + 3 * fuel)%nat
  /\ slept w <= slept w' <= slept w + 7000 * Z.of_nat fuel.
Proof.
  induction fuel as [|fuel IH]; intros i images w; [simpl; lia|].
  cbn [Service1.batch_loop].
  pose proof (attempt1_budget api i w) as Hat.
  destruct (Service1.attempt api i w) as [[t|r] w1]; simpl in Hat.
  - destruct t as [|e]; [simpl; lia|].
    destruct (Service1.quotaMessage e); [simpl; lia|].
    specialize (IH (S i) images w1). simpl in IH. lia.
  - specialize (IH (S i) (images ++ inlineImages r) w1). simpl in IH. lia.
Qed.

(** X5. The cost of a batch of the first service: [generateStageImage]
    with [N] images requested sends at most [3 * N] requests and sleeps at
    most [7000 * N] ms in pauses and backoff; it never sends a request when
    [N <= 0]. *)
Theorem generateStageImage_budget (api : Oracle) (N : Z) (w : World) :
  let w' := (Service1.generateStageImage api {| imageCount := N |} w).2 in
  (calls w <= calls w' <= calls w + 3 * Z.to_nat N)%nat
  /\ slept w <= slept w' <= slept w + 7000 * Z.max N 0
  /\ (N <= 0 -> w' = w).
Proof.
  intros w'. subst w'.
  unfold Service1.generateStageImage, Service1.batch, bind. simpl.
  pose proof (batch_loop1_budget api (Z.to_nat N) 0 [] w) as Hb. simpl in Hb.
  destruct (Service1.batch_loop api (Z.to_nat N) 0 [] w) as [[t|images] w1] eqn:Hloop;
    simpl in Hb.
  - split; [simpl; lia|]. split; [simpl; lia|].
    intros HN. replace (Z.to_nat N) with 0%nat in Hloop by lia. simpl in Hloop.
    unfold ret in Hloop. congruence.
  - assert (w1 = w \/ (0 < N)) as Hw.
    { destruct (Z.le_gt_cases N 0) as [HN|HN]; [left|right; lia].
      replace (Z.to_nat N) with 0%nat in Hloop by lia. simpl in Hloop.
      unfold ret in Hloop. congruence. }
    case_bool_decide; simpl; (split; [lia|]; split; [lia|]; intros HN;
      destruct Hw as [->|Hw]; [reflexivity | lia]).
Qed.

Lemma generateStageImage_budget_witness :
  let w' := (Service1.generateStageImage (fun _ => inl quotaError)
               {| imageCount := 0 |} (mkWorld 5 [1000])).2 in
  w' = mkWorld 5 [1000].
Proof.
  intros w'.
  apply (proj2 (proj2 (generateStageImage_budget (fun _ => inl quotaError) 0
                         (mkWorld 5 [1000])))).
  lia.
Defined.

Lemma batch_loop2_total (api : Oracle) fuel : forall i images w,
  exists more w',
    Service2.batch_loop api fuel i images w = (inr (images ++ more), w')
    /\ (length more <= fuel)%nat.
Proof.
  induction fuel as [|fuel IH]; intros i images w; cbn [Service2.batch_loop].
  - exists [], w. rewrite app_nil_r. split; [reflexivity | simpl; lia].
  - destruct (Service2.attempt api _) as [[t|r] w1].
    + exists [], w1. rewrite app_nil_r. split; [reflexivity | simpl; lia].
    + destruct (IH (S i) (images ++ option_list (firstInlineImage r)) w1)
        as (more & w' & -> & Hlen).
      exists (option_list (firstInlineImage r) ++ more), w'.
      rewrite app_assoc. split; [reflexivity|].
      rewrite length_app. destruct (firstInlineImage r); simpl; lia.
Qed.

(** X6. The batches of the second service: [generateStageImage] raises an
    error exactly when no image was collected and otherwise returns between
    1 and [N] images, one per answered call at most; its
    [generateSimilarVariant] never raises and returns at most [N] images,
    possibly none. *)
Theorem second_service_batch_result (api : Oracle) (N : Z) (url : string) (w : World) :
  exists images w',
    Service2.generateSimilarVariant api url N w = (inr images, w')
    /\ Z.of_nat (length images) <= Z.max N 0
    /\ (images = [] ->
        Service2.generateStageImage api {| imageCount := N |} w
        = (inl (newError "Failed to generate stage images."), w'))
    /\ (images <> [] ->
        Service2.generateStageImage api {| imageCount := N |} w = (inr images, w')
        /\ 1 <= Z.of_nat (length images) <= N).
Proof.
  destruct (batch_loop2_total api (Z.to_nat N) 0 [] w) as (images & w' & Hloop & Hlen).
  simpl in Hloop. exists images, w'.
  unfold Service2.generateSimilarVariant, Service2.generateStageImage, bind. simpl.
  rewrite Hloop. split; [reflexivity|]. split; [lia|]. split.
  - intros ->. reflexivity.
  - intros Hne. destruct images; [congruence|]. simpl in *.
    split; [reflexivity | lia].
Qed.

Lemma second_service_batch_result_witness :
  exists images w',
    Service2.generateSimilarVariant (fun _ => inr (twoImages "A" "B")) "img" 2
      (mkWorld 0 []) = (inr images, w')
    /\ Service2.generateStageImage (fun _ => inr (twoImages "A" "B"))
         {| imageCount := 2 |} (mkWorld 0 []) = (inr images, w')
    /\ 1 <= Z.of_nat (length images) <= 2.
Proof.
  destruct (second_service_batch_result (fun _ => inr (twoImages "A" "B")) 2 "img"
              (mkWorld 0 [])) as (images & w' & Hsim & _ & _ & Hsome).
  exists images, w'. split; [exact Hsim|].
  apply Hsome. intros ->. vm_compute in Hsim. discriminate.
Defined.

Lemma inlineImages_png (r : Response) : Forall pngDataUrl (inlineImages r).
Proof.
  apply Forall_forall. intros url Hin. unfold inlineImages in Hin.
  apply list_elem_of_omap in Hin as (p & _ & Hp).
  destruct (inlineData p) as [b|]; [|discriminate]. injection Hp as <-.
  exists (default "undefined" (data b)). reflexivity.
Qed.

Lemma batch_loop1_png (api : Oracle) fuel : forall i images w result w',
  Forall pngDataUrl images ->
  Service1.batch_loop api fuel i images w = (inr result, w') ->
  Forall pngDataUrl result.
Proof.
  induction fuel as [|fuel IH]; intros i images w result w' Himg; cbn [Service1.batch_loop].
  - intros [= <- _]. exact Himg.
  - destruct (Service1.attempt api i w) as [[t|r] w1].
    + destruct t as [|e]; [discriminate|].
      destruct (Service1.quotaMessage e); [intros [= <- _]; exact Himg|].
      apply IH. exact Himg.
    + apply IH. apply Forall_app. split; [exact Himg | apply inlineImages_png].
Qed.

Lemma singleImage1_png (api : Oracle) (failure : string) (w : World) url w' :
  Service1.singleImage api failure w = (inr url, w') -> pngDataUrl url.
Proof.
  unfold Service1.singleImage, bind.
  destruct (Gemini1.retryWithBackoff _ _ _ w) as [[t|r] w1]; [discriminate|].
  unfold firstInlineImage.
  pose proof (inlineImages_png r) as Hpng.
  destruct (inlineImages r) as [|u l]; simpl; [discriminate|].
  intros [= <- _]. apply Forall_cons in Hpng as [Hu _]. exact Hu.
Qed.

(** X7. Every image that the first service returns is a PNG data URL
    ([data:image/png;base64,] followed by a payload): the images of a batch
    as well as the result of an upscale, an edit and a viewpoint change. *)
Theorem service_images_are_png (api : Oracle) (w : World) :
  (forall config images w',
     Service1.generateStageImage api config w = (inr images, w') ->
     Forall pngDataUrl images)
  /\ (forall original count images w',
        Service1.generateSimilarVariant api original count w = (inr images, w') ->
        Forall pngDataUrl images)
  /\ (forall imageUrl url w',
        Service1.upscaleStageImage api imageUrl w = (inr url, w') -> pngDataUrl url)
  /\ (forall current instruction mask url w',
        Service1.editStageImage api current instruction mask w = (inr url, w') ->
        pngDataUrl url)
  /\ (forall original viewpoint url w',
        Service1.generateViewpointVariant api original viewpoint w = (inr url, w') ->
        pngDataUrl url).
Proof.
  assert (forall count failure images w',
            Service1.batch api count failure w = (inr images, w') ->
            Forall pngDataUrl images) as Hbatch.
  { intros count failure images w'. unfold Service1.batch, bind.
    destruct (Service1.batch_loop api (Z.to_nat count) 0 [] w) as [[t|result] w1] eqn:Hloop;
      [discriminate|].
    case_bool_decide; [|discriminate]. intros [= <- _].
    apply (batch_loop1_png api _ _ _ _ _ _ (Forall_nil_2 _) Hloop). }
  split; [|split; [|split; [|split]]].
  - intros config images w'. apply Hbatch.
  - intros original count images w'. apply Hbatch.
  - intros imageUrl url w'. apply singleImage1_png.
  - intros current instruction mask url w'. apply singleImage1_png.
  - intros original viewpoint url w'. apply singleImage1_png.
Qed.

Lemma service_images_are_png_witness :
  pngDataUrl "data:image/png;base64,A".
Proof.
  apply (proj1 (proj2 (proj2 (service_images_are_png (fun _ => inr (oneImage "A"))
                                (mkWorld 0 []))))
           "draft" "data:image/png;base64,A" (mkWorld 1 [])).
  reflexivity.
Defined.

(** ** The library listing *)

Section NewestFirst.
Context {A : Type}.
Variable key : A -> Z.

Local Abbreviation before := (fun a b : A => bool_decide (key b < key a)).

Lemma insert_by_descending (x : A) (l : list A) :
  descendingBy key l -> descendingBy key (insert_by before x l).
Proof.
  induction l as [|y l IH]; simpl; [auto|].
  intros [Hall Hdesc]. case_bool_decide as Hlt; simpl.
  - split; [|apply IH; exact Hdesc].
    rewrite insert_by_perm. constructor; [lia | exact Hall].
  - split; [|split; [exact Hall | exact Hdesc]].
    constructor; [lia|]. eapply Forall_impl; [exact Hall|]. simpl. intros z Hz. lia.
Qed.

Lemma sort_by_descending (l : list A) : descendingBy key (sort_by before l).
Proof.
  induction l as [|x l IH]; simpl; [exact I|]. apply insert_by_descending, IH.
Qed.

(** Sorting a list that is already in order changes nothing. *)
Lemma sort_by_descending_id (l : list A) :
  descendingBy key l -> sort_by before l = l.
Proof.
  induction l as [|x l IH]; simpl; [reflexivity|].
  intros [Hall Hdesc]. rewrite (IH Hdesc).
  destruct l as [|y l]; simpl; [reflexivity|].
  apply Forall_cons in Hall as [Hy _].
  rewrite bool_decide_false by lia. reflexivity.
Qed.

Lemma filter_insert_by_out (P : A -> Prop) `{forall a, Decision (P a)} (x : A) (l : list A) :
  ~ P x -> filter P (insert_by before x l) = filter P l.
Proof.
  intros Hx. induction l as [|y l IH]; simpl.
  - rewrite filter_cons_False by exact Hx. reflexivity.
  - destruct (bool_decide (key x < key y)).
    + rewrite !filter_cons. rewrite IH. reflexivity.
    + rewrite filter_cons_False by exact Hx. reflexivity.
Qed.
End NewestFirst.

Lemma filter_all {A} (P : A -> Prop) `{forall a, Decision (P a)} (l : list A) :
  Forall P l -> filter P l = l.
Proof.
  induction 1 as [|x l Hx _ IH]; [reflexivity|].
  rewrite filter_cons_True by exact Hx. rewrite IH. reflexivity.
Qed.

(** X8. The library listing [getSavedDesigns]: with the database available
    it is ordered newest first, holds exactly the stored records, as many
    as the store has, and, the store being keyed by id, no two of them
    share an id; without the database it is empty. *)
Theorem getSavedDesigns_listing (s : Storage) :
  (db_available s = true ->
   descendingBy timestamp (getSavedDesigns s)
   /\ (forall d, d ∈ getSavedDesigns s <-> exists k, designs s !! k = Some d)
   /\ length (getSavedDesigns s) = size (designs s)
   /\ (keyed (designs s) -> NoDup (id <$> getSavedDesigns s)))
  /\ (db_available s = false -> getSavedDesigns s = []).
Proof.
  split.
  - intros Hdb. split; [|split; [|split]].
    + unfold getSavedDesigns, newestFirst. rewrite Hdb.
      apply (sort_by_descending timestamp).
    + intros d. apply elem_of_getSavedDesigns. exact Hdb.
    + unfold getSavedDesigns, newestFirst, getAll. rewrite Hdb.
      rewrite sort_by_perm, length_fmap, sort_by_perm. apply length_map_to_list.
    + intros Hkeyed. unfold getSavedDesigns, newestFirst, getAll. rewrite Hdb.
      rewrite sort_by_perm. rewrite sort_by_perm.
      assert (id <$> (map_to_list (designs s)).*2 = (map_to_list (designs s)).*1) as ->.
      { rewrite <- list_fmap_compose. apply list_fmap_ext.
        intros i [k d] Hi. simpl. apply (Hkeyed k d).
        apply elem_of_map_to_list. apply list_elem_of_lookup. eauto. }
      apply NoDup_fst_map_to_list.
  - intros Hdb. unfold getSavedDesigns. rewrite Hdb. reflexivity.
Qed.

Lemma getSavedDesigns_listing_witness :
  (id <$> getSavedDesigns sampleStorage) = ["d3"; "d2"; "d1"]
  /\ descendingBy timestamp (getSavedDesigns sampleStorage)
  /\ NoDup (id <$> getSavedDesigns sampleStorage).
Proof.
  destruct (getSavedDesigns_listing sampleStorage) as [Hok _].
  destruct (Hok eq_refl) as (Hdesc & _ & _ & Hnodup).
  split; [reflexivity|]. split; [exact Hdesc|]. apply Hnodup, sampleStorage_keyed.
Defined.

(** ** Storage operations *)

Lemma keyed_delete (k : string) (m : gmap string GeneratedDesign) :
  keyed m -> keyed (delete k m).
Proof. intros H. apply map_Forall_delete. exact H. Qed.

(** X9. Saving a design whose id is not in the store: the record is stored
    under its id with every field of the incoming record and the incoming
    folder, every other record is untouched, the store grows by one and
    stays keyed by id, and the returned listing is the listing of the new
    store and contains the record. Without the database the save throws and
    the store is left as it was. *)
Theorem saveDesignToLibrary_fresh (design : GeneratedDesign) (s : Storage) :
  (db_available s = true ->
   designs s !! id design = None ->
   let stored := with_folder (assign (read (folder design))) design in
   let s' := (saveDesignToLibrary design s).2 in
   designs s' !! id design = Some stored
   /\ (forall k, k <> id design -> designs s' !! k = designs s !! k)
   /\ size (designs s') = S (size (designs s))
   /\ (keyed (designs s) -> keyed (designs s'))
   /\ (saveDesignToLibrary design s).1 = inr (getSavedDesigns s')
   /\ stored ∈ getSavedDesigns s'
   /\ folders_slot s' = folders_slot s)
  /\ (db_available s = false -> saveDesignToLibrary design s = (inl idbError, s)).
Proof.
  split.
  - intros Hdb Hnone stored s'. subst s'. unfold saveDesignToLibrary.
    rewrite Hdb, Hnone. cbn [snd fst].
    assert (with_folder
              match read (folder design) with
              | Some f => Given f
              | None => assign (None ≫= fun c => read (folder c))
              end design = stored) as ->.
    { subst stored. destruct (read (folder design)); reflexivity. }
    split; [apply lookup_insert_eq|].
    split; [intros k Hk; apply lookup_insert_ne; simpl; congruence|].
    split; [apply map_size_insert_None; exact Hnone|].
    split; [intros Hkeyed; apply map_Forall_insert_2; [reflexivity | exact Hkeyed]|].
    split; [reflexivity|]. split; [|reflexivity].
    apply elem_of_getSavedDesigns; [exact Hdb|].
    exists (id design). apply lookup_insert_eq.
  - intros Hdb. unfold saveDesignToLibrary. rewrite Hdb. reflexivity.
Qed.

Lemma saveDesignToLibrary_fresh_witness :
  designs (saveDesignToLibrary (sampleDesign "d4" "img4" 40 (Given "草稿 (Drafts)"))
             sampleStorage).2 !! "d4"
  = Some (sampleDesign "d4" "img4" 40 (Given "草稿 (Drafts)"))
  /\ size (designs (saveDesignToLibrary (sampleDesign "d4" "img4" 40 (Given "草稿 (Drafts)"))
                      sampleStorage).2) = 4%nat.
Proof.
  destruct (saveDesignToLibrary_fresh (sampleDesign "d4" "img4" 40 (Given "草稿 (Drafts)"))
              sampleStorage) as [Hok _].
  destruct (Hok eq_refl eq_refl) as (Hstored & _ & Hsize & _).
  split; [exact Hstored | exact Hsize].
Defined.

(** X10. Deleting a design: with the database available the id is no longer
    in the store nor in the returned listing, every other record is
    untouched, and deleting an id that is not stored leaves the storage
    exactly as it was; without the database nothing is deleted and the
    returned listing is empty. *)
Theorem deleteDesignFromLibrary_removes (designId : string) (s : Storage) :
  (db_available s = true ->
   let s' := (deleteDesignFromLibrary designId s).2 in
   designs s' !! designId = None
   /\ (forall k, k <> designId -> designs s' !! k = designs s !! k)
   /\ (deleteDesignFromLibrary designId s).1 = getSavedDesigns s'
   /\ (keyed (designs s) ->
       forall d, d ∈ (deleteDesignFromLibrary designId s).1 -> id d <> designId)
   /\ (designs s !! designId = None -> s' = s))
  /\ (db_available s = false -> deleteDesignFromLibrary designId s = ([], s)).
Proof.
  split.
  - intros Hdb s'. subst s'. unfold deleteDesignFromLibrary. rewrite Hdb. cbn [snd fst].
    split; [apply lookup_delete_eq|].
    split; [intros k Hk; apply lookup_delete_ne; congruence|].
    split; [reflexivity|]. split.
    + intros Hkeyed d Hd Hid.
      apply elem_of_getSavedDesigns in Hd as [k Hk]; [|reflexivity].
      simpl in Hk. pose proof (keyed_delete designId _ Hkeyed k d Hk) as Hkey.
      rewrite <- Hkey, Hid in Hk. rewrite lookup_delete_eq in Hk. discriminate.
    + intros Hnone. destruct s as [db m fs]. simpl in *. subst db.
      f_equal. apply delete_id. exact Hnone.
  - intros Hdb. unfold deleteDesignFromLibrary, getSavedDesigns. rewrite Hdb.
    reflexivity.
Qed.

Lemma deleteDesignFromLibrary_removes_witness :
  designs (deleteDesignFromLibrary "d2" sampleStorage).2 !! "d2" = None
  /\ (deleteDesignFromLibrary "nobody" sampleStorage).2 = sampleStorage.
Proof.
  destruct (deleteDesignFromLibrary_removes "d2" sampleStorage) as [Hok _].
  destruct (Hok eq_refl) as (Hgone & _).
  destruct (deleteDesignFromLibrary_removes "nobody" sampleStorage) as [Hok' _].
  destruct (Hok' eq_refl) as (_ & _ & _ & _ & Hsame).
  split; [exact Hgone | apply Hsame; reflexivity].
Defined.

(** X11. Moving a design to a folder: with the database available and the
    store keyed by id, the record keeps every field but [folder], which
    becomes the given label ([undefined] for none); no other record and not
    the folder list is touched, and the label is accepted whether or not it
    is a known folder. An id that is not stored leaves the storage exactly
    as it was: no record is created. *)
Theorem moveDesignToFolder_sets_folder
    (designId : string) (folderName : option string) (s : Storage) :
  db_available s = true ->
  keyed (designs s) ->
  let s' := (moveDesignToFolder designId folderName s).2 in
  (forall d, designs s !! designId = Some d ->
     designs s' !! designId = Some (with_folder (assign folderName) d)
     /\ read (folder (with_folder (assign folderName) d)) = folderName)
  /\ (forall k, k <> designId -> designs s' !! k = designs s !! k)
  /\ getFolders s' = getFolders s
  /\ (designs s !! designId = None -> s' = s)
  /\ (moveDesignToFolder designId folderName s).1 = getSavedDesigns s'.
Proof.
  intros Hdb Hkeyed s'. subst s'. unfold moveDesignToFolder. rewrite Hdb. cbn [snd fst].
  destruct (designs s !! designId) as [d0|] eqn:Hd.
  - pose proof (Hkeyed designId d0 Hd) as Hid.
    split; [|split; [|split; [|split]]].
    + intros d [= <-]. split.
      * simpl. rewrite Hid. apply lookup_insert_eq.
      * destruct folderName; reflexivity.
    + intros k Hk. simpl. rewrite Hid. apply lookup_insert_ne. congruence.
    + reflexivity.
    + discriminate.
    + reflexivity.
  - split; [|split; [|split; [|split]]]; try reflexivity; discriminate.
Qed.

Lemma moveDesignToFolder_sets_folder_witness :
  designs (moveDesignToFolder "d3" (Some "Tour 2027") sampleStorage).2 !! "d3"
  = Some (sampleDesign "d3" "img3" 30 (Given "Tour 2027"))
  /\ getFolders (moveDesignToFolder "d3" (Some "Tour 2027") sampleStorage).2
     = defaultFolders
  /\ (moveDesignToFolder "nobody" None sampleStorage).2 = sampleStorage.
Proof.
  destruct (moveDesignToFolder_sets_folder "d3" (Some "Tour 2027") sampleStorage
              eq_refl sampleStorage_keyed) as (Hset & _ & Hlist & _).
  destruct (moveDesignToFolder_sets_folder "nobody" None sampleStorage
              eq_refl sampleStorage_keyed) as (_ & _ & _ & Hsame & _).
  split; [apply (Hset (sampleDesign "d3" "img3" 30 Absent)); reflexivity|].
  split; [exact Hlist | apply Hsame; reflexivity].
Defined.

(** ** Folder names *)

Lemma createFolder_new (folderName : string) (s : Storage) :
  folderName ∉ getFolders s ->
  getFolders (createFolder folderName s).2 = getFolders s ++ [folderName].
Proof.
  intros Hout. unfold createFolder. rewrite bool_decide_false by exact Hout.
  reflexivity.
Qed.

(** X12. Creating a folder: the returned list is the stored list, it
    contains the name, keeps the earlier names in their order and appends
    the name at the end only when it is new, so a list without duplicates
    stays without duplicates; a name that is already listed writes nothing;
    creating the same folder twice is the same as creating it once; the
    designs are never touched. *)
Theorem createFolder_adds_once (folderName : string) (s : Storage) :
  let s' := (createFolder folderName s).2 in
  (createFolder folderName s).1 = getFolders s'
  /\ folderName ∈ getFolders s'
  /\ (folderName ∈ getFolders s -> s' = s)
  /\ (folderName ∉ getFolders s -> getFolders s' = getFolders s ++ [folderName])
  /\ (NoDup (getFolders s) -> NoDup (getFolders s'))
  /\ createFolder folderName s' = (getFolders s', s')
  /\ designs s' = designs s.
Proof.
  intros s'. subst s'. unfold createFolder.
  case_bool_decide as Hin; cbn [fst snd].
  - rewrite bool_decide_true by exact Hin.
    repeat split; auto. intros Hout. contradiction.
  - assert (folderName ∈ getFolders s ++ [folderName]) as Hnew
      by (apply elem_of_app; right; apply list_elem_of_singleton; reflexivity).
    change (getFolders (setFolders ?l s)) with l.
    rewrite bool_decide_true by exact Hnew.
    split; [reflexivity|]. split; [exact Hnew|]. split; [contradiction|].
    split; [reflexivity|]. split; [|split; reflexivity].
    intros Hnodup. apply NoDup_app. split; [exact Hnodup|]. split.
    + intros x Hx Hx'. apply list_elem_of_singleton in Hx'. subst x. contradiction.
    + apply NoDup_singleton.
Qed.

Lemma createFolder_adds_once_witness :
  getFolders (createFolder "Tour 2027" sampleStorage).2
  = defaultFolders ++ ["Tour 2027"]
  /\ (createFolder "草稿 (Drafts)" sampleStorage).2 = sampleStorage
  /\ NoDup (getFolders (createFolder "Tour 2027" sampleStorage).2).
Proof.
  destruct (createFolder_adds_once "Tour 2027" sampleStorage)
    as (_ & _ & _ & Hnew & Hnodup & _).
  destruct (createFolder_adds_once "草稿 (Drafts)" sampleStorage)
    as (_ & _ & Hsame & _).
  split; [apply Hnew|split; [apply Hsame|apply Hnodup]].
  - intros Hin. vm_compute in Hin.
    repeat (apply elem_of_cons in Hin as [Hin|Hin]; [discriminate|]).
    inversion Hin.
  - vm_compute. apply elem_of_cons. right. apply elem_of_cons. left. reflexivity.
  - vm_compute. repeat constructor; intros Hin;
      repeat (apply elem_of_cons in Hin as [Hin|Hin]; [discriminate|]); inversion Hin.
Defined.

(** X13. The folder list under [deleteFolder]: the stored list is the old
    one without the name, in the same order; deleting a name that is not
    listed stores the list as it was, so on a fresh profile it persists the
    two default folders; deleting a folder right after creating it, when it
    was new, gives back the earlier list; and when the database cannot be
    opened the name is still removed from the list while every design keeps
    its folder label. *)
Theorem deleteFolder_folder_list (folderName : string) (s : Storage) :
  let s' := (deleteFolder folderName s).2 in
  getFolders s' = filter (fun f => f ≠ folderName) (getFolders s)
  /\ folders_slot s' = Some (getFolders s')
  /\ (folderName ∉ getFolders s -> getFolders s' = getFolders s)
  /\ (folderName ∉ getFolders s ->
      getFolders (deleteFolder folderName (createFolder folderName s).2).2
      = getFolders s)
  /\ (db_available s = false -> designs s' = designs s).
Proof.
  intros s'.
  assert (forall st, getFolders (deleteFolder folderName st).2
                     = filter (fun f => f ≠ folderName) (getFolders st)
                     /\ folders_slot (deleteFolder folderName st).2
                        = Some (filter (fun f => f ≠ folderName) (getFolders st)))
    as Hlist.
  { intros st. rewrite deleteFolder_storage. split; reflexivity. }
  assert (forall l : list string, folderName ∉ l ->
            filter (fun f => f ≠ folderName) l = l) as Hkeep.
  { intros l Hout. apply filter_all. apply Forall_forall.
    intros f Hf ->. contradiction. }
  destruct (Hlist s) as [Hl Hslot]. fold s' in Hl, Hslot.
  split; [exact Hl|]. split; [rewrite Hslot, Hl; reflexivity|].
  split; [intros Hout; rewrite Hl; apply Hkeep, Hout|]. split.
  - intros Hout. rewrite (proj1 (Hlist _)).
    rewrite (createFolder_new folderName s Hout). rewrite filter_app. rewrite (Hkeep _ Hout).
    rewrite filter_cons_False by (intros H; apply H; reflexivity).
    rewrite filter_nil. apply app_nil_r.
  - intros _. subst s'. rewrite deleteFolder_storage. reflexivity.
Qed.

Lemma deleteFolder_folder_list_witness :
  folders_slot (deleteFolder "Tour 2027" sampleStorage).2 = Some defaultFolders
  /\ getFolders (deleteFolder "Tour 2027" (createFolder "Tour 2027" sampleStorage).2).2
     = defaultFolders.
Proof.
  destruct (deleteFolder_folder_list "Tour 2027" sampleStorage)
    as (_ & Hslot & Hsame & Hround & _).
  assert ("Tour 2027" ∉ getFolders sampleStorage) as Hout.
  { intros Hin. vm_compute in Hin.
    repeat (apply elem_of_cons in Hin as [Hin|Hin]; [discriminate|]).
    inversion Hin. }
  split; [rewrite Hslot, (Hsame Hout); reflexivity | exact (Hround Hout)].
Defined.

(** ** Saved concepts *)

Lemma descendingBy_filter {A} (key : A -> Z) (P : A -> Prop)
    `{forall a, Decision (P a)} (l : list A) :
  descendingBy key l -> descendingBy key (filter P l).
Proof.
  induction l as [|x l IH]; simpl; [auto|].
  intros [Hall Hdesc]. rewrite filter_cons. destruct (decide (P x)); simpl.
  - split; [|apply IH, Hdesc].
    apply Forall_forall. intros y Hy. apply list_elem_of_filter in Hy as [_ Hy].
    rewrite Forall_forall in Hall. apply Hall, Hy.
  - apply IH, Hdesc.
Qed.

Lemma getSavedConcepts_descending (slot : Concepts.Slot) :
  descendingBy Concepts.timestamp (Concepts.getSavedConcepts slot).
Proof.
  destruct slot as [l|]; simpl; [|exact I].
  apply (sort_by_descending Concepts.timestamp).
Qed.

(** X14. Saved concepts: the listing is ordered newest first; [saveConcept]
    returns the new concept, with the given id and time, in front of the
    earlier listing and stores exactly these concepts, and when the clock
    has not gone backwards a later listing is that same list;
    [deleteConcept] keeps exactly the listed concepts with another id, in
    order, and a later listing is what it returned; deleting a concept
    right after saving it under an unused id gives back the earlier
    listing. *)
Theorem concepts_save_delete
    (c : Concepts.CreativeConcept) (uuid conceptId : string) (now : Z)
    (slot : Concepts.Slot) :
  let listing := Concepts.getSavedConcepts slot in
  let saved := Concepts.saveConcept c uuid now slot in
  let deleted := Concepts.deleteConcept conceptId slot in
  descendingBy Concepts.timestamp listing
  /\ saved.1 = {| Concepts.concept := c; Concepts.id := uuid; Concepts.timestamp := now |}
               :: listing
  /\ Concepts.getSavedConcepts saved.2 ≡ₚ saved.1
  /\ (Forall (fun x => Concepts.timestamp x <= now) listing ->
      Concepts.getSavedConcepts saved.2 = saved.1)
  /\ (forall x, x ∈ deleted.1 <-> x ∈ listing /\ Concepts.id x <> conceptId)
  /\ Concepts.getSavedConcepts deleted.2 = deleted.1
  /\ (Forall (fun x => Concepts.id x <> uuid) listing ->
      (Concepts.deleteConcept uuid saved.2).1 = listing).
Proof.
  intros listing saved deleted.
  pose proof (getSavedConcepts_descending slot) as Hdesc. fold listing in Hdesc.
  split; [exact Hdesc|]. split; [reflexivity|].
  split; [apply sort_by_perm|]. split; [|split; [|split]].
  - intros Hnow. subst saved. unfold Concepts.saveConcept. cbn [fst snd].
    fold listing. apply (sort_by_descending_id Concepts.timestamp).
    simpl. split; [exact Hnow | exact Hdesc].
  - intros x. subst deleted. unfold Concepts.deleteConcept. cbn [fst].
    fold listing. rewrite list_elem_of_filter. tauto.
  - subst deleted. unfold Concepts.deleteConcept. cbn [fst snd]. fold listing.
    apply (sort_by_descending_id Concepts.timestamp).
    apply descendingBy_filter. exact Hdesc.
  - intros Hfresh. subst saved.
    unfold Concepts.deleteConcept, Concepts.saveConcept. cbn [fst snd]. fold listing.
    cbn [Concepts.getSavedConcepts sort_by foldr].
    rewrite (filter_insert_by_out Concepts.timestamp)
      by (intros H; apply H; reflexivity).
    change (foldr (insert_by (fun a b => bool_decide
                     (Concepts.timestamp b < Concepts.timestamp a))) [] listing)
      with (sort_by (fun a b => bool_decide
                     (Concepts.timestamp b < Concepts.timestamp a)) listing).
    rewrite (sort_by_descending_id Concepts.timestamp listing Hdesc).
    apply filter_all. exact Hfresh.
Qed.

Lemma concepts_save_delete_witness :
  let c := {| Concepts.title := "Aurora"; Concepts.elements := "LED";
              Concepts.colors := "cyan"; Concepts.vibe := "Cyberpunk";
              Concepts.mechanics := "Turntable" |} in
  let slot := (Concepts.saveConcept c "c1" 10 None).2 in
  Concepts.getSavedConcepts (Concepts.saveConcept c "c2" 20 slot).2
  = [ {| Concepts.concept := c; Concepts.id := "c2"; Concepts.timestamp := 20 |};
      {| Concepts.concept := c; Concepts.id := "c1"; Concepts.timestamp := 10 |} ]
  /\ (Concepts.deleteConcept "c2" (Concepts.saveConcept c "c2" 20 slot).2).1
     = Concepts.getSavedConcepts slot.
Proof.
  intros c slot.
  destruct (concepts_save_delete c "c2" "c2" 20 slot)
    as (_ & _ & _ & Hlist & _ & _ & Hround).
  split.
  - rewrite Hlist; [reflexivity|]. vm_compute. repeat constructor. discriminate.
  - apply Hround. vm_compute. repeat constructor. discriminate.
Defined.

(** ** Well-formed designs everywhere *)

Lemma all_wf_same (sys sys' : System) :
  currentDesign (app sys') = currentDesign (app sys) ->
  savedDesigns (app sys') = savedDesigns (app sys) ->
  designs (disk sys') = designs (disk sys) ->
  all_well_formed sys -> all_well_formed sys'.
Proof. unfold all_well_formed. intros -> -> ->. auto. Qed.

Lemma well_formed_branch (newImageUrl : string) (prev : GeneratedDesign) :
  well_formed (branch newImageUrl prev).
Proof.
  split; [apply branch_in_range|].
  unfold branch. cbn [imageUrl imageHistory historyIndex with_image].
  unfold Js.index. rewrite length_app. cbn [length].
  rewrite bool_decide_true by lia.
  rewrite lookup_app_r by lia.
  replace (Z.to_nat _ - _)%nat with 0%nat by lia. reflexivity.
Qed.

Lemma well_formed_appended (url : string) (target : GeneratedDesign) :
  well_formed (with_selection (Some url) (imageHistory target ++ [url])
                 (Z.of_nat (length (imageHistory target))) target).
Proof.
  split; cbn [imageUrl imageHistory historyIndex with_selection].
  - rewrite length_app. simpl. lia.
  - unfold Js.index. rewrite bool_decide_true by lia.
    rewrite lookup_app_r by lia.
    replace (Z.to_nat _ - _)%nat with 0%nat by lia. reflexivity.
Qed.

Lemma well_formed_single (key img : string) video vs meta stamp f :
  well_formed {| id := key; imageUrl := Some img; videoUrl := video; variants := vs;
                 imageHistory := [img]; historyIndex := 0; details := meta;
                 timestamp := stamp; folder := f |}.
Proof. split; [simpl; lia | reflexivity]. Qed.

Lemma getSavedDesigns_wf (s : Storage) :
  map_Forall (fun _ d => well_formed d) (designs s) ->
  Forall well_formed (getSavedDesigns s).
Proof.
  intros Hwf. destruct (db_available s) eqn:Hdb.
  - apply Forall_forall. intros d Hd.
    apply elem_of_getSavedDesigns in Hd as [k Hk]; [|exact Hdb].
    exact (Hwf k d Hk).
  - unfold getSavedDesigns. rewrite Hdb. constructor.
Qed.

Lemma saveDesignToLibrary_wf (design : GeneratedDesign) (s : Storage) :
  well_formed design ->
  map_Forall (fun _ d => well_formed d) (designs s) ->
  map_Forall (fun _ d => well_formed d) (designs (saveDesignToLibrary design s).2)
  /\ match (saveDesignToLibrary design s).1 with
     | inr l => Forall well_formed l
     | inl _ => True
     end.
Proof.
  intros Hd Hs. unfold saveDesignToLibrary. destruct (db_available s) eqn:Hdb; cbn [fst snd].
  - assert (map_Forall (fun _ d => well_formed d)
              (designs (put (with_folder
                 match read (folder design) with
                 | Some f => Given f
                 | None => assign (designs s !! id design ≫= fun c => read (folder c))
                 end design) s))) as Hput.
    { apply map_Forall_insert_2; [exact Hd | exact Hs]. }
    split; [exact Hput | apply getSavedDesigns_wf, Hput].
  - split; [exact Hs | exact I].
Qed.

Lemma saveAll_wf (ds : list GeneratedDesign) : forall s,
  Forall well_formed ds ->
  map_Forall (fun _ d => well_formed d) (designs s) ->
  map_Forall (fun _ d => well_formed d) (designs (saveAll ds s).2).
Proof.
  induction ds as [|d ds IH]; intros s Hds Hs; simpl; [exact Hs|].
  apply Forall_cons in Hds as [Hd Hds].
  pose proof (saveDesignToLibrary_wf d s Hd Hs) as [Hs' _].
  destruct (saveDesignToLibrary d s) as [[t|l] s']; simpl in *; [exact Hs'|].
  apply IH; assumption.
Qed.

Lemma updateDesignState_wf (design : GeneratedDesign) (forceSave : bool) (sys : System) :
  well_formed design ->
  all_well_formed sys ->
  all_well_formed (updateDesignState design forceSave sys).
Proof.
  intros Hd (Hcur & Hsaved & Hstore). unfold updateDesignState.
  destruct (autoSave (app sys) || forceSave).
  - pose proof (saveDesignToLibrary_wf design (disk sys) Hd Hstore) as [Hs' Hl].
    change (disk (on_app (setCurrentDesign (Some design)) sys)) with (disk sys).
    destruct (saveDesignToLibrary design (disk sys)) as [[t|l] s']; simpl in *.
    + split; [intros d [= <-]; exact Hd|]. split; [exact Hsaved | exact Hs'].
    + split; [intros d [= <-]; exact Hd|]. split; [exact Hl | exact Hs'].
  - split; [intros d [= <-]; exact Hd|]. split; [exact Hsaved | exact Hstore].
Qed.

Lemma mutateImage_wf (apiKey : bool) request quotaText otherText (sys : System) :
  all_well_formed sys ->
  all_well_formed (mutateImage apiKey request quotaText otherText sys).
Proof.
  intros Hwf. unfold mutateImage.
  destruct (currentDesign (app sys)) as [prev|] eqn:Hcur; [|exact Hwf].
  destruct (negb (Js.truthy (imageUrl prev))); [exact Hwf|].
  destruct (negb apiKey); [exact Hwf|].
  cbn zeta.
  change (net (on_app (setError None) (on_app (setIsEditingImage true) sys)))
    with (net sys).
  destruct (request _ (net sys)) as [[t|newImageUrl] w'].
  - destruct t; (eapply all_wf_same; [| | |exact Hwf]; reflexivity).
  - eapply all_wf_same; [reflexivity | reflexivity | reflexivity |].
    apply updateDesignState_wf; [apply (well_formed_branch newImageUrl prev)|].
    eapply all_wf_same; [| | |exact Hwf]; reflexivity.
Qed.

Lemma handleUndo_wf (sys : System) :
  all_well_formed sys -> all_well_formed (handleUndo sys).
Proof.
  intros Hwf. unfold handleUndo.
  destruct (currentDesign (app sys)) as [cur|] eqn:Hcur; [|exact Hwf].
  case_bool_decide as Hidx; [exact Hwf|].
  apply updateDesignState_wf; [|exact Hwf].
  destruct (proj1 Hwf cur Hcur) as [Hrange _].
  split; [simpl; lia | reflexivity].
Qed.

Lemma handleRedo_wf (sys : System) :
  all_well_formed sys -> all_well_formed (handleRedo sys).
Proof.
  intros Hwf. unfold handleRedo.
  destruct (currentDesign (app sys)) as [cur|] eqn:Hcur; [|exact Hwf].
  case_bool_decide as Hidx; [exact Hwf|].
  apply updateDesignState_wf; [|exact Hwf].
  destruct (proj1 Hwf cur Hcur) as [Hrange _].
  split; [simpl; lia | reflexivity].
Qed.

Lemma upscaleTarget_wf (randomUUID : nat -> string) (variantUrl : string)
    (sys : System) target sys1 :
  all_well_formed sys ->
  upscaleTarget randomUUID variantUrl sys = Some (target, sys1) ->
  well_formed target /\ imageUrl target = Some variantUrl /\ all_well_formed sys1.
Proof.
  intros Hwf. unfold upscaleTarget.
  destruct (List.find _ (savedDesigns (app sys))) as [found|] eqn:Hfind.
  - intros [= <- <-]. apply find_some in Hfind as [Hin Hurl].
    apply bool_decide_eq_true in Hurl.
    split; [|split; [exact Hurl | exact Hwf]].
    destruct Hwf as (_ & Hsaved & _). rewrite Forall_forall in Hsaved.
    apply Hsaved, list_elem_of_In, Hin.
  - destruct (currentDesign (app sys)) as [cur|]; [|discriminate].
    destruct (_ || _); [|discriminate].
    intros [= <- <-]. split; [apply well_formed_single|]. split; [reflexivity|].
    eapply all_wf_same; [| | |exact Hwf]; reflexivity.
Qed.

Lemma handleUpscale_wf (upscaleStageImage : string -> Api string)
    (randomUUID : nat -> string) (variantUrl : string) (sys : System) :
  all_well_formed sys ->
  all_well_formed (handleUpscale upscaleStageImage randomUUID variantUrl sys).
Proof.
  intros Hwf. unfold handleUpscale.
  assert (all_well_formed (on_app (setIsEditingImage true) sys)) as Hwf0
    by (eapply all_wf_same; [| | |exact Hwf]; reflexivity).
  destruct (upscaleTarget randomUUID variantUrl (on_app (setIsEditingImage true) sys))
    as [[target sys1]|] eqn:Htarget.
  - destruct (upscaleTarget_wf randomUUID variantUrl _ target sys1 Hwf0 Htarget)
      as (Htwf & Hurl & Hwf1).
    eapply all_wf_same; [reflexivity | reflexivity | reflexivity |].
    destruct (upscaleStageImage variantUrl (net sys1)) as [[t|upscaledUrl] w'].
    + destruct t as [|err].
      * eapply all_wf_same; [| | |exact Hwf1]; reflexivity.
      * apply updateDesignState_wf.
        -- destruct Htwf as [Hrange Himg]. split; [exact Hrange|].
           cbn [imageUrl imageHistory historyIndex with_selection].
           rewrite <- Himg. symmetry. exact Hurl.
        -- eapply all_wf_same; [| | |exact Hwf1]; reflexivity.
    + apply updateDesignState_wf; [apply well_formed_appended|].
      eapply all_wf_same; [| | |exact Hwf1]; reflexivity.
  - eapply all_wf_same; [| | |exact Hwf]; reflexivity.
Qed.

Lemma imap_wf {A} (f : nat -> A -> GeneratedDesign) (l : list A) :
  (forall i x, well_formed (f i x)) -> Forall well_formed (imap f l).
Proof.
  intros Hf. revert f Hf. induction l as [|x l IH]; intros f Hf; simpl; constructor.
  - apply Hf.
  - apply IH. intros i y. apply Hf.
Qed.

(** What both generators do with a list of new, well-formed designs. *)
Lemma display_wf (newDesigns : list GeneratedDesign) (images : list string)
    (sys : System) :
  Forall well_formed newDesigns ->
  all_well_formed sys ->
  all_well_formed
    (on_app (setCurrentDesign
               (if bool_decide (1 < length newDesigns)%nat
                then with_variants (Some images) <$> head newDesigns
                else head newDesigns)) sys).
Proof.
  intros Hnew (Hcur & Hsaved & Hstore).
  split; [|split; [exact Hsaved | exact Hstore]].
  intros d. cbn [app on_app currentDesign setCurrentDesign].
  destruct newDesigns as [|x l]; [case_bool_decide; discriminate|].
  apply Forall_cons in Hnew as [Hx _].
  case_bool_decide; simpl; intros [= <-]; exact Hx.
Qed.

Lemma saved_batch_wf (newDesigns : list GeneratedDesign) (images : list string)
    (report : Thrown -> System -> System) (sys : System) :
  (forall t s, all_well_formed s -> all_well_formed (report t s)) ->
  Forall well_formed newDesigns ->
  all_well_formed sys ->
  all_well_formed
    (match saveAll newDesigns (disk sys) with
     | (inr _, s') =>
         on_app (setCurrentDesign
                   (if bool_decide (1 < length newDesigns)%nat
                    then with_variants (Some images) <$> head newDesigns
                    else head newDesigns))
           (on_app (setSavedDesigns (getSavedDesigns s')) (with_disk s' sys))
     | (inl t, s') => report t (with_disk s' sys)
     end).
Proof.
  intros Hreport Hnew Hwf.
  pose proof (saveAll_wf newDesigns (disk sys) Hnew (proj2 (proj2 Hwf))) as Hs'.
  destruct (saveAll newDesigns (disk sys)) as [[t|u] s']; simpl in Hs'.
  - apply Hreport. split; [exact (proj1 Hwf)|]. split; [exact (proj1 (proj2 Hwf))|].
    exact Hs'.
  - apply display_wf; [exact Hnew|].
    split; [exact (proj1 Hwf)|]. split; [apply getSavedDesigns_wf, Hs' | exact Hs'].
Qed.

Lemma reportGenerateFailure_wf (t : Thrown) (sys : System) :
  all_well_formed sys -> all_well_formed (reportGenerateFailure t sys).
Proof.
  intros Hwf. destruct t; [exact Hwf|].
  eapply all_wf_same; [| | |exact Hwf]; reflexivity.
Qed.

Lemma reportSimilarFailure_wf (t : Thrown) (sys : System) :
  all_well_formed sys -> all_well_formed (reportSimilarFailure t sys).
Proof.
  intros Hwf. destruct t; [exact Hwf|].
  eapply all_wf_same; [| | |exact Hwf]; reflexivity.
Qed.

Lemma handleGenerate_wf
    (generateStageImage : StageConfig -> Api (list string))
    (generateStageDescription : StageConfig -> Api DesignResponseSchema)
    (apiKey : bool) (randomUUID : nat -> string) (now : Z) (sys : System) :
  all_well_formed sys ->
  all_well_formed
    (handleGenerate generateStageImage generateStageDescription apiKey randomUUID now sys).
Proof.
  intros Hwf. unfold handleGenerate.
  destruct (negb apiKey); [eapply all_wf_same; [| | |exact Hwf]; reflexivity|].
  cbn zeta. eapply all_wf_same; [reflexivity | reflexivity | reflexivity |].
  set (sys1 := on_app (setError None) (on_app (setIsGenerating true) sys)).
  assert (all_well_formed sys1) as Hwf1
    by (eapply all_wf_same; [| | |exact Hwf]; reflexivity).
  destruct (generateStageImage _ (net sys1)) as [[t|images] w1].
  - apply reportGenerateFailure_wf. eapply all_wf_same; [| | |exact Hwf1]; reflexivity.
  - destruct (generateStageDescription _ w1) as [[t|textDetails] w2].
    + apply reportGenerateFailure_wf. eapply all_wf_same; [| | |exact Hwf1]; reflexivity.
    + set (newDesigns := imap _ images).
      assert (Forall well_formed newDesigns) as Hnew
        by (apply imap_wf; intros i x; apply well_formed_single).
      set (sys3 := mkSystem (app sys1) w2 (disk sys1) (uuids sys1 + length images)).
      assert (all_well_formed sys3) as Hwf3
        by (eapply all_wf_same; [| | |exact Hwf1]; reflexivity).
      destruct (autoSave (app sys)).
      * apply (saved_batch_wf newDesigns images reportGenerateFailure sys3);
          [intros; apply reportGenerateFailure_wf; assumption | exact Hnew | exact Hwf3].
      * apply display_wf; [exact Hnew | exact Hwf3].
Qed.

Lemma handleGenerateSimilar_wf
    (generateSimilarVariant : string -> Z -> Api (list string))
    (apiKey : bool) (randomUUID : nat -> string) (now : Z) (sys : System) :
  all_well_formed sys ->
  all_well_formed (handleGenerateSimilar generateSimilarVariant apiKey randomUUID now sys).
Proof.
  intros Hwf. unfold handleGenerateSimilar.
  destruct (currentDesign (app sys)) as [cur|] eqn:Hcur; [|exact Hwf].
  destruct (negb (Js.truthy (imageUrl cur))); [exact Hwf|].
  destruct (negb apiKey); [exact Hwf|].
  cbn zeta. eapply all_wf_same; [reflexivity | reflexivity | reflexivity |].
  set (sys1 := on_app (setError None) (on_app (setIsGenerating true) sys)).
  assert (all_well_formed sys1) as Hwf1
    by (eapply all_wf_same; [| | |exact Hwf]; reflexivity).
  destruct (generateSimilarVariant _ _ (net sys1)) as [[t|images] w1].
  - apply reportSimilarFailure_wf. eapply all_wf_same; [| | |exact Hwf1]; reflexivity.
  - set (newDesigns := similarDesigns randomUUID now cur (uuids sys1) images).
    assert (Forall well_formed newDesigns) as Hnew
      by (apply imap_wf; intros i x; apply well_formed_single).
    set (sys3 := mkSystem (app sys1) w1 (disk sys1) (uuids sys1 + length images)).
    assert (all_well_formed sys3) as Hwf3
      by (eapply all_wf_same; [| | |exact Hwf1]; reflexivity).
    destruct (autoSave (app sys)).
    + apply (saved_batch_wf newDesigns images reportSimilarFailure sys3);
        [intros; apply reportSimilarFailure_wf; assumption | exact Hnew | exact Hwf3].
    + apply display_wf; [exact Hnew | exact Hwf3].
Qed.

Lemma handleManualSave_wf (randomUUID : nat -> string) (now : Z) (asCopy : bool)
    (sys : System) :
  all_well_formed sys ->
  all_well_formed (handleManualSave randomUUID now asCopy sys).
Proof.
  intros Hwf. unfold handleManualSave.
  destruct (currentDesign (app sys)) as [cur|] eqn:Hcur; [|exact Hwf].
  pose proof (proj1 Hwf cur Hcur) as Hcurwf.
  destruct asCopy.
  - apply updateDesignState_wf; [exact Hcurwf|].
    eapply all_wf_same; [| | |exact Hwf]; reflexivity.
  - apply updateDesignState_wf; [exact Hcurwf | exact Hwf].
Qed.

Lemma handleDeleteDesign_wf (designId : string) (sys : System) :
  all_well_formed sys -> all_well_formed (handleDeleteDesign designId sys).
Proof.
  intros (Hcur & Hsaved & Hstore). unfold handleDeleteDesign.
  assert (map_Forall (fun _ d => well_formed d)
            (designs (deleteDesignFromLibrary designId (disk sys)).2)
          /\ Forall well_formed (deleteDesignFromLibrary designId (disk sys)).1)
    as [Hs' Hl].
  { unfold deleteDesignFromLibrary. destruct (db_available (disk sys)); cbn [fst snd].
    - assert (map_Forall (fun _ d => well_formed d) (delete designId (designs (disk sys))))
        as Hdel by (apply map_Forall_delete; exact Hstore).
      split; [exact Hdel | apply getSavedDesigns_wf; exact Hdel].
    - split; [exact Hstore | apply getSavedDesigns_wf; exact Hstore]. }
  destruct (deleteDesignFromLibrary designId (disk sys)) as [newList s']. simpl in *.
  assert (all_well_formed (on_app (setSavedDesigns newList) (with_disk s' sys))) as Hwf1
    by (split; [exact Hcur | split; [exact Hl | exact Hs']]).
  destruct (currentDesign (app sys)) as [cur|]; [|exact Hwf1].
  case_bool_decide; [|exact Hwf1].
  split; [discriminate|]. split; [exact Hl | exact Hs'].
Qed.

Lemma handleUpdateDesignFolder_wf (designId : string) (folderName : option string)
    (sys : System) :
  all_well_formed sys ->
  all_well_formed (handleUpdateDesignFolder designId folderName sys).
Proof.
  intros (Hcur & Hsaved & Hstore). unfold handleUpdateDesignFolder.
  assert (map_Forall (fun _ d => well_formed d)
            (designs (moveDesignToFolder designId folderName (disk sys)).2)
          /\ Forall well_formed (moveDesignToFolder designId folderName (disk sys)).1)
    as [Hs' Hl].
  { unfold moveDesignToFolder. destruct (db_available (disk sys)); cbn [fst snd].
    - assert (map_Forall (fun _ d => well_formed d)
                (designs match designs (disk sys) !! designId with
                         | Some d => put (with_folder (assign folderName) d) (disk sys)
                         | None => disk sys
                         end)) as Hmoved.
      { destruct (designs (disk sys) !! designId) as [d|] eqn:Hd; [|exact Hstore].
        apply map_Forall_insert_2; [exact (Hstore designId d Hd) | exact Hstore]. }
      split; [exact Hmoved | apply getSavedDesigns_wf; exact Hmoved].
    - split; [exact Hstore | apply getSavedDesigns_wf; exact Hstore]. }
  destruct (moveDesignToFolder designId folderName (disk sys)) as [newList s'].
  simpl in *.
  assert (all_well_formed (on_app (setSavedDesigns newList) (with_disk s' sys))) as Hwf1
    by (split; [exact Hcur | split; [exact Hl | exact Hs']]).
  destruct (currentDesign (app sys)) as [cur|]; [|exact Hwf1].
  case_bool_decide; [|exact Hwf1].
  destruct (List.find _ newList) as [updated|] eqn:Hfind; [|exact Hwf1].
  apply find_some in Hfind as [Hin _]. rewrite Forall_forall in Hl.
  split; [|split; [apply Forall_forall; exact Hl | exact Hs']].
  intros d [= <-]. apply Hl, list_elem_of_In, Hin.
Qed.

Lemma clearLoop_wf (folderName : string) (tx : Transaction)
    (l : list GeneratedDesign) : forall st,
  Forall well_formed l ->
  map_Forall (fun _ d => well_formed d) (designs st) ->
  map_Forall (fun _ d => well_formed d) (designs (clearLoop folderName tx l st).2).
Proof.
  induction l as [|d l IH]; intros st Hl Hst; cbn [clearLoop]; [exact Hst|].
  apply Forall_cons in Hl as [Hd Hl].
  case_bool_decide; [|apply IH; [exact Hl | exact Hst]].
  destruct tx; cbn [store_put]; [|exact Hst].
  apply IH; [exact Hl|].
  apply map_Forall_insert_2; [exact Hd | exact Hst].
Qed.

Lemma handleDeleteFolderWithSync_wf (folderName : string) (sys : System) :
  all_well_formed sys -> all_well_formed (handleDeleteFolderWithSync folderName sys).
Proof.
  intros (Hcur & Hsaved & Hstore). unfold handleDeleteFolderWithSync.
  assert (map_Forall (fun _ d => well_formed d)
            (designs (deleteFolder folderName (disk sys)).2)) as Hs'.
  { unfold deleteFolder. destruct (db_available (setFolders _ (disk sys))); cbn [snd].
    - apply clearLoop_wf; [apply getSavedDesigns_wf; exact Hstore | exact Hstore].
    - exact Hstore. }
  destruct (deleteFolder folderName (disk sys)) as [folders s']. simpl in *.
  split; [exact Hcur|]. split; [apply getSavedDesigns_wf; exact Hs' | exact Hs'].
Qed.

(** X15. The invariant of the data model holds throughout a session. If
    every design of the system (the current one, the in-memory library
    list, the store) has its cursor inside a non-empty history and its
    image equal to the entry under the cursor, then the same is true after
    any sequence of user actions (generate, generate similar, edit,
    viewpoint change, upscale, undo, redo, save, save as copy, delete, move
    to folder, delete folder, select from the library), whatever the remote
    calls and the database do. *)
Theorem session_keeps_designs_well_formed
    (editStageImage : string -> string -> option string -> Api string)
    (generateViewpointVariant : string -> string -> Api string)
    (upscaleStageImage : string -> Api string)
    (generateStageImage : StageConfig -> Api (list string))
    (generateStageDescription : StageConfig -> Api DesignResponseSchema)
    (generateSimilarVariant : string -> Z -> Api (list string))
    (apiKey : bool) (randomUUID : nat -> string) (now : Z)
    (actions : list Action) (sys : System) :
  all_well_formed sys ->
  all_well_formed
    (session editStageImage generateViewpointVariant upscaleStageImage
       generateStageImage generateStageDescription generateSimilarVariant
       apiKey randomUUID now actions sys).
Proof.
  revert sys. induction actions as [|a actions IH]; intros sys Hwf; simpl; [exact Hwf|].
  apply IH. destruct a; simpl.
  - apply handleGenerate_wf, Hwf.
  - apply handleGenerateSimilar_wf, Hwf.
  - apply mutateImage_wf, Hwf.
  - apply mutateImage_wf, Hwf.
  - apply handleUpscale_wf, Hwf.
  - apply handleUndo_wf, Hwf.
  - apply handleRedo_wf, Hwf.
  - apply handleManualSave_wf, Hwf.
  - apply handleDeleteDesign_wf, Hwf.
  - apply handleUpdateDesignFolder_wf, Hwf.
  - apply handleDeleteFolderWithSync_wf, Hwf.
  - destruct (savedDesigns (app sys) !! position) as [design|] eqn:Hd; [|exact Hwf].
    destruct Hwf as (Hcur & Hsaved & Hstore).
    split; [|split; [exact Hsaved | exact Hstore]].
    intros d [= <-]. rewrite Forall_forall in Hsaved.
    apply Hsaved. apply list_elem_of_lookup. eauto.
Qed.

Lemma session_keeps_designs_well_formed_witness :
  let api : Oracle := fun k => if (k =? 1)%nat then inl serverError else inr (oneImage "D") in
  all_well_formed
    (session (Service1.editStageImage api) (Service1.generateViewpointVariant api)
       (Service1.upscaleStageImage api) (Service1.generateStageImage api)
       (Service1.generateStageDescription api (fun _ => None))
       (Service1.generateSimilarVariant api) true (fun n => pretty n) 100
       [Upscale "img2"; EditImage "more lasers" None; UndoImage; ManualSave true;
        GenerateSimilar; UpdateDesignFolder "0" (Some "Tour"); DeleteFolder "Tour";
        SelectDesign 0; RedoImage; DeleteDesign "0"; Generate]
       selectionSession).
Proof.
  intros api. apply session_keeps_designs_well_formed.
  split; [|split].
  - intros d [= <-]. split; [simpl; lia | reflexivity].
  - constructor.
  - apply map_Forall_empty.
Defined.

(** ** Undo, redo and edit together *)

Lemma handleRedo_at_tail (sys : System) (d : GeneratedDesign) :
  currentDesign (app sys) = Some d ->
  historyIndex d = Z.of_nat (length (imageHistory d)) - 1 ->
  handleRedo sys = sys.
Proof.
  intros Hcur Hidx. unfold handleRedo. rewrite Hcur.
  rewrite bool_decide_true by lia. reflexivity.
Qed.

(** X16. Undo and redo are inverse to each other on a well-formed design:
    redo after undo, when the cursor was not at 0, and undo after redo,
    when the cursor was not at the tail, give back the design as it was,
    image included; with autosave off the whole system is as it was. *)
Theorem undo_redo_round_trip (sys : System) (cur : GeneratedDesign) :
  currentDesign (app sys) = Some cur ->
  well_formed cur ->
  (0 < historyIndex cur ->
   currentDesign (app (handleRedo (handleUndo sys))) = Some cur)
  /\ (historyIndex cur < Z.of_nat (length (imageHistory cur)) - 1 ->
      currentDesign (app (handleUndo (handleRedo sys))) = Some cur)
  /\ (0 < historyIndex cur -> autoSave (app sys) = false ->
      handleRedo (handleUndo sys) = sys).
Proof.
  intros Hcur [Hrange Himg].
  split; [|split].
  - intros Hpos. unfold handleRedo.
    assert (currentDesign (app (handleUndo sys))
            = Some (with_image (Js.index (imageHistory cur) (historyIndex cur - 1))
                      (imageHistory cur) (historyIndex cur - 1) cur)) as Hundo.
    { unfold handleUndo. rewrite Hcur. rewrite bool_decide_false by lia.
      apply updateDesignState_current. }
    rewrite Hundo. cbn [imageHistory historyIndex with_image].
    rewrite bool_decide_false by lia.
    rewrite updateDesignState_current. f_equal.
    replace (historyIndex cur - 1 + 1) with (historyIndex cur) by lia.
    rewrite <- Himg. destruct cur. reflexivity.
  - intros Hlt. unfold handleUndo.
    assert (currentDesign (app (handleRedo sys))
            = Some (with_image (Js.index (imageHistory cur) (historyIndex cur + 1))
                      (imageHistory cur) (historyIndex cur + 1) cur)) as Hredo.
    { unfold handleRedo. rewrite Hcur. rewrite bool_decide_false by lia.
      apply updateDesignState_current. }
    rewrite Hredo. cbn [imageHistory historyIndex with_image].
    rewrite bool_decide_false by lia.
    rewrite updateDesignState_current. f_equal.
    replace (historyIndex cur + 1 - 1) with (historyIndex cur) by lia.
    rewrite <- Himg. destruct cur. reflexivity.
  - intros Hpos Hauto.
    unfold handleUndo. rewrite Hcur. rewrite bool_decide_false by lia.
    unfold updateDesignState at 1. rewrite Hauto. cbn [orb].
    unfold handleRedo. cbn [app on_app currentDesign setCurrentDesign].
    cbn [imageHistory historyIndex with_image].
    rewrite bool_decide_false by lia.
    unfold updateDesignState. cbn [app on_app autoSave setCurrentDesign].
    rewrite Hauto. cbn [orb].
    replace (historyIndex cur - 1 + 1) with (historyIndex cur) by lia.
    rewrite <- Himg.
    destruct sys as [[cfg cd sd au ig ie er] w st u]. simpl in *. subst cd.
    destruct cur. reflexivity.
Qed.

Lemma undo_redo_round_trip_witness :
  handleRedo (handleUndo sampleSession) = sampleSession.
Proof.
  refine (proj2 (proj2 (undo_redo_round_trip sampleSession _ eq_refl _)) _ eq_refl).
  - split; [simpl; lia | reflexivity].
  - simpl. lia.
Defined.

(** X17. A successful edit drops the redo branch: whatever lay after the
    cursor, the new history has exactly [cursor + 2] entries, the cursor
    is on the last of them, so redo right after the edit changes nothing;
    and undo right after the edit shows the image that was edited. *)
Theorem edit_then_redo_and_undo
    (editStageImage : string -> string -> option string -> Api string)
    (sys : System) (prev : GeneratedDesign) (newImageUrl : string) (w' : World)
    (instruction : string) (maskBase64 : option string) :
  currentDesign (app sys) = Some prev ->
  Js.truthy (imageUrl prev) = true ->
  well_formed prev ->
  editStageImage (default "" (imageUrl prev)) instruction maskBase64 (net sys)
  = (inr newImageUrl, w') ->
  let sys' := handleEditImage editStageImage true instruction maskBase64 sys in
  handleRedo sys' = sys'
  /\ (exists d, currentDesign (app sys') = Some d
                /\ Z.of_nat (length (imageHistory d)) = historyIndex prev + 2)
  /\ (exists d, currentDesign (app (handleUndo sys')) = Some d
                /\ imageUrl d = imageUrl prev
                /\ historyIndex d = historyIndex prev).
Proof.
  intros Hcur Htruthy [Hrange Himg] Hreq sys'.
  assert (currentDesign (app sys') = Some (branch newImageUrl prev)) as Hcur'.
  { subst sys'. unfold handleEditImage.
    apply (mutateImage_success true _ _ _ sys prev newImageUrl w'); auto. }
  destruct (branch_history newImageUrl prev Hrange) as (Hhist & Hidx & _ & _).
  assert (Z.of_nat (length (imageHistory (branch newImageUrl prev)))
          = historyIndex prev + 2) as Hlen.
  { rewrite Hhist, length_app, length_take. simpl. lia. }
  split; [|split].
  - apply (handleRedo_at_tail sys' _ Hcur'). lia.
  - eexists. split; [exact Hcur' | exact Hlen].
  - unfold handleUndo. rewrite Hcur'. rewrite bool_decide_false by lia.
    eexists. split; [apply updateDesignState_current|].
    cbn [imageUrl historyIndex with_image]. split; [|lia].
    rewrite Hidx, Hhist, Himg.
    replace (historyIndex prev + 1 - 1) with (historyIndex prev) by lia.
    unfold Js.index. rewrite bool_decide_true by lia.
    rewrite lookup_app_l by (rewrite length_take; lia).
    rewrite lookup_take_lt by lia. reflexivity.
Qed.

Lemma edit_then_redo_and_undo_witness :
  let api : Oracle := fun _ => inr (oneImage "D") in
  let sys' := handleEditImage (Service1.editStageImage api) true "more lasers" None
                (handleUndo sampleSession) in
  handleRedo sys' = sys'
  /\ (exists d, currentDesign (app (handleUndo sys')) = Some d
                /\ imageUrl d = Some "b" /\ historyIndex d = 1).
Proof.
  intros api sys'.
  destruct (edit_then_redo_and_undo (Service1.editStageImage api)
              (handleUndo sampleSession) _ "data:image/png;base64,D" (mkWorld 1 [])
              "more lasers" None eq_refl eq_refl
              ltac:(split; [simpl; lia | reflexivity]) eq_refl)
    as (Hredo & _ & Hundo).
  split; [exact Hredo | exact Hundo].
Defined.

(** ** Upscale *)

(** X18. Upscale. When the request succeeds, the design it targets keeps
    its id and all of its history, also the entries after the cursor, the
    upscaled image is appended and becomes current with the cursor on it,
    and the candidates are cleared. When no design matches the variant,
    no request is sent and no identifier is drawn; the current design, the
    library list and the store are untouched and an error is shown. *)
Theorem handleUpscale_success_and_not_found
    (upscaleStageImage : string -> Api string) (randomUUID : nat -> string)
    (variantUrl : string) (sys : System) :
  (forall target sys1 upscaledUrl w',
     upscaleTarget randomUUID variantUrl sys = Some (target, sys1) ->
     upscaleStageImage variantUrl (net sys) = (inr upscaledUrl, w') ->
     exists d,
       currentDesign (app (handleUpscale upscaleStageImage randomUUID variantUrl sys))
       = Some d
       /\ id d = id target
       /\ imageHistory d = imageHistory target ++ [upscaledUrl]
       /\ historyIndex d = Z.of_nat (length (imageHistory d)) - 1
       /\ imageUrl d = Some upscaledUrl
       /\ variants d = Some [])
  /\ (upscaleTarget randomUUID variantUrl sys = None ->
      let sys' := handleUpscale upscaleStageImage randomUUID variantUrl sys in
      currentDesign (app sys') = currentDesign (app sys)
      /\ savedDesigns (app sys') = savedDesigns (app sys)
      /\ net sys' = net sys /\ disk sys' = disk sys /\ uuids sys' = uuids sys
      /\ isEditingImage (app sys') = false
      /\ error (app sys') = Some "無法找到原始設計檔案 (Original design not found)").
Proof.
  split.
  - intros target sys1 upscaledUrl w' Htarget Hreq.
    destruct (upscaleTarget_busy randomUUID variantUrl sys target sys1 Htarget)
      as (Hbusy & Hnet & _ & _).
    unfold handleUpscale. rewrite Hbusy.
    change (net (on_app (setIsEditingImage true) sys1)) with (net sys1).
    rewrite Hnet, Hreq.
    eexists. split; [simpl; apply updateDesignState_current|].
    cbn [id imageHistory historyIndex imageUrl variants with_selection].
    rewrite length_app. simpl. repeat split; lia.
  - intros Hnone sys'. subst sys'. unfold handleUpscale.
    assert (upscaleTarget randomUUID variantUrl (on_app (setIsEditingImage true) sys)
            = None) as ->.
    { revert Hnone. unfold upscaleTarget. simpl.
      destruct (List.find _ (savedDesigns (app sys))); [discriminate|].
      destruct (currentDesign (app sys)); [|reflexivity].
      destruct (_ || _); [discriminate | reflexivity]. }
    repeat split.
Qed.

Lemma handleUpscale_success_and_not_found_witness :
  let api : Oracle := fun _ => inr (oneImage "HD") in
  let sys' := handleUpscale (Service1.upscaleStageImage api) (fun _ => "uuid-1") "img2"
                selectionSession in
  (exists d, currentDesign (app sys') = Some d
             /\ id d = "uuid-1"
             /\ imageHistory d = ["img2"; "data:image/png;base64,HD"]
             /\ historyIndex d = 1)
  /\ net (handleUpscale (Service1.upscaleStageImage api) (fun _ => "uuid-1") "img9"
            selectionSession) = mkWorld 0 [].
Proof.
  intros api sys'.
  destruct (handleUpscale_success_and_not_found (Service1.upscaleStageImage api)
              (fun _ => "uuid-1") "img2" selectionSession) as [Hok _].
  destruct (handleUpscale_success_and_not_found (Service1.upscaleStageImage api)
              (fun _ => "uuid-1") "img9" selectionSession) as [_ Hnone].
  split.
  - destruct (Hok _ _ "data:image/png;base64,HD" (mkWorld 1 []) eq_refl eq_refl)
      as (d & Hd & Hid & Hhist & Hidx & _).
    exists d. split; [exact Hd|]. split; [exact Hid|]. split; [exact Hhist|].
    rewrite Hidx, Hhist. reflexivity.
  - destruct (Hnone eq_refl) as (_ & _ & Hnet & _). exact Hnet.
Defined.

(** ** Saving from the session *)

(** X19. The persistence policy of [updateDesignState]: the design always
    becomes the current one; nothing is written unless autosave is on or
    the save is forced; a forced or automatic save that cannot open the
    database leaves the store as it was and shows the save-failed message
    while the in-memory design stays updated; a save that succeeds stores
    the design under its id, leaves the records of other ids alone and
    refreshes the in-memory list from the store. *)
Theorem updateDesignState_policy (design : GeneratedDesign) (forceSave : bool)
    (sys : System) :
  let sys' := updateDesignState design forceSave sys in
  currentDesign (app sys') = Some design
  /\ net sys' = net sys /\ uuids sys' = uuids sys
  /\ (autoSave (app sys) || forceSave = false ->
      disk sys' = disk sys /\ savedDesigns (app sys') = savedDesigns (app sys)
      /\ error (app sys') = error (app sys))
  /\ (autoSave (app sys) || forceSave = true -> db_available (disk sys) = false ->
      disk sys' = disk sys /\ savedDesigns (app sys') = savedDesigns (app sys)
      /\ error (app sys') = Some "儲存失敗 (Save failed) - Storage might be full.")
  /\ (autoSave (app sys) || forceSave = true -> db_available (disk sys) = true ->
      (exists stored, designs (disk sys') !! id design = Some stored
                      /\ stored = with_folder (folder stored) design)
      /\ (forall k, k <> id design -> designs (disk sys') !! k = designs (disk sys) !! k)
      /\ savedDesigns (app sys') = getSavedDesigns (disk sys')
      /\ error (app sys') = error (app sys)).
Proof.
  intros sys'. subst sys'. unfold updateDesignState.
  split; [|split; [|split; [|split; [|split]]]].
  - destruct (autoSave (app sys) || forceSave); [|reflexivity].
    destruct (saveDesignToLibrary _ _) as [[t|l] s']; reflexivity.
  - destruct (autoSave (app sys) || forceSave); [|reflexivity].
    destruct (saveDesignToLibrary _ _) as [[t|l] s']; reflexivity.
  - destruct (autoSave (app sys) || forceSave); [|reflexivity].
    destruct (saveDesignToLibrary _ _) as [[t|l] s']; reflexivity.
  - intros ->. auto.
  - intros -> Hdb. unfold saveDesignToLibrary.
    change (disk (on_app (setCurrentDesign (Some design)) sys)) with (disk sys).
    rewrite Hdb. auto.
  - intros -> Hdb. unfold saveDesignToLibrary.
    change (disk (on_app (setCurrentDesign (Some design)) sys)) with (disk sys).
    rewrite Hdb. cbn [disk with_disk on_app app savedDesigns setSavedDesigns error].
    split; [|split; [|split; reflexivity]].
    + eexists. split; [apply lookup_insert_eq | reflexivity].
    + intros k Hk. apply lookup_insert_ne. simpl. congruence.
Qed.

Lemma updateDesignState_policy_witness :
  let offline := with_disk {| db_available := false; designs := ∅; folders_slot := None |}
                   selectionSession in
  let design := sampleDesign "d9" "img9" 90 Absent in
  currentDesign (app (updateDesignState design false offline)) = Some design
  /\ error (app (updateDesignState design false offline))
     = Some "儲存失敗 (Save failed) - Storage might be full."
  /\ disk (updateDesignState design false sampleSession) = disk sampleSession.
Proof.
  intros offline design.
  destruct (updateDesignState_policy design false offline) as (Hcur & _ & _ & _ & Hfail & _).
  destruct (updateDesignState_policy design false sampleSession) as (_ & _ & _ & Hoff & _).
  split; [exact Hcur|]. split.
  - destruct (Hfail eq_refl eq_refl) as (_ & _ & Herr). exact Herr.
  - destruct (Hoff eq_refl) as (Hdisk & _). exact Hdisk.
Defined.



Lemma forced_save_stores (design : GeneratedDesign) (sys : System) :
  db_available (disk sys) = true ->
  let sys' := updateDesignState design true sys in
  (exists stored, designs (disk sys') !! id design = Some stored
                  /\ stored = with_folder (folder stored) design)
  /\ (forall k, k <> id design -> designs (disk sys') !! k = designs (disk sys) !! k)
  /\ uuids sys' = uuids sys.
Proof.
  intros Hdb sys'. subst sys'. unfold updateDesignState. rewrite orb_true_r.
  unfold saveDesignToLibrary.
  change (disk (on_app (setCurrentDesign (Some design)) sys)) with (disk sys).
  rewrite Hdb. cbn [disk with_disk on_app uuids].
  split; [|split; [|reflexivity]].
  - eexists. split; [apply lookup_insert_eq | reflexivity].
  - intros k Hk. apply lookup_insert_ne. simpl. congruence.
Qed.

(** X20. Manual save writes even when autosave is off. With the database
    available, "save" stores the current design under its id; "save as
    copy" draws a new id, stores under it a record with the same image,
    history and cursor, the title extended by " (Copy)" and the current
    time, makes that copy the current design and, the new id being
    different, leaves the stored original as it was. Without a current
    design nothing happens. *)
Theorem handleManualSave_saves (randomUUID : nat -> string) (now : Z)
    (sys : System) (cur : GeneratedDesign) :
  db_available (disk sys) = true ->
  currentDesign (app sys) = Some cur ->
  (let sys' := handleManualSave randomUUID now false sys in
   (exists stored, designs (disk sys') !! id cur = Some stored
                   /\ stored = with_folder (folder stored) cur)
   /\ currentDesign (app sys') = Some cur
   /\ uuids sys' = uuids sys)
  /\ (let sys' := handleManualSave randomUUID now true sys in
      let newId := randomUUID (uuids sys) in
      (exists copy,
         designs (disk sys') !! newId = Some copy
         /\ currentDesign (app sys') = Some (with_folder (folder cur) copy)
         /\ id copy = newId
         /\ imageUrl copy = imageUrl cur
         /\ imageHistory copy = imageHistory cur
         /\ historyIndex copy = historyIndex cur
         /\ conceptTitle (details copy) = conceptTitle (details cur) +:+ " (Copy)"
         /\ timestamp copy = now)
      /\ (newId <> id cur -> designs (disk sys') !! id cur = designs (disk sys) !! id cur)
      /\ uuids sys' = S (uuids sys)).
Proof.
  intros Hdb Hcur. split.
  - intros sys'. subst sys'. unfold handleManualSave. rewrite Hcur.
    destruct (forced_save_stores cur sys Hdb) as (Hstored & _ & Hu).
    split; [exact Hstored|]. split; [apply updateDesignState_current | exact Hu].
  - intros sys' newId. subst sys' newId. unfold handleManualSave. rewrite Hcur.
    set (copy := mkDesign _ _ _ _ _ _ _ _ _).
    set (sys1 := mkSystem _ _ _ _).
    destruct (forced_save_stores copy sys1 Hdb) as ((stored & Hstored & Heq) & Hother & Hu).
    split; [|split; [|exact Hu]].
    + exists stored. split; [exact Hstored|].
      rewrite updateDesignState_current, Heq.
      split; [reflexivity|]. repeat split.
    + intros Hne. apply (Hother (id cur)). simpl. congruence.
Qed.

Lemma handleManualSave_saves_witness :
  let sys' := handleManualSave (fun _ => "copy-1") 500 true sampleSession in
  (exists copy,
     designs (disk sys') !! "copy-1" = Some copy
     /\ imageHistory copy = ["a"; "b"; "c"]
     /\ historyIndex copy = 2
     /\ conceptTitle (details copy) = "Aurora (Copy)")
  /\ uuids sys' = 1%nat.
Proof.
  intros sys'.
  destruct (handleManualSave_saves (fun _ => "copy-1") 500 sampleSession _ eq_refl eq_refl)
    as (_ & (copy & Hstored & _ & _ & _ & Hhist & Hidx & Htitle & _) & _ & Hu).
  split; [|exact Hu].
  exists copy. split; [exact Hstored|]. split; [exact Hhist|]. split; [exact Hidx|].
  exact Htitle.
Defined.

(** ** Generation *)






(** ** Library handlers *)




(** ** Busy flags *)

Lemma updateDesignState_flags (design : GeneratedDesign) (forceSave : bool)
    (sys : System) :
  isEditingImage (app (updateDesignState design forceSave sys)) = isEditingImage (app sys)
  /\ isGenerating (app (updateDesignState design forceSave sys)) = isGenerating (app sys).
Proof.
  unfold updateDesignState. destruct (autoSave (app sys) || forceSave); [|auto].
  destruct (saveDesignToLibrary _ _) as [[t|l] s']; auto.
Qed.

(** X24. No handler leaves the interface busy: if neither the editing flag
    nor the generating flag is set before a user action, neither is set
    after it, whether the action succeeded, failed or returned early; hence
    the same holds after any sequence of actions. *)
Theorem session_releases_busy_flags
    (editStageImage : string -> string -> option string -> Api string)
    (generateViewpointVariant : string -> string -> Api string)
    (upscaleStageImage : string -> Api string)
    (generateStageImage : StageConfig -> Api (list string))
    (generateStageDescription : StageConfig -> Api DesignResponseSchema)
    (generateSimilarVariant : string -> Z -> Api (list string))
    (apiKey : bool) (randomUUID : nat -> string) (now : Z)
    (actions : list Action) (sys : System) :
  isEditingImage (app sys) = false ->
  isGenerating (app sys) = false ->
  let sys' := session editStageImage generateViewpointVariant upscaleStageImage
                generateStageImage generateStageDescription generateSimilarVariant
                apiKey randomUUID now actions sys in
  isEditingImage (app sys') = false /\ isGenerating (app sys') = false.
Proof.
  revert sys. induction actions as [|a actions IH]; intros sys He Hg; simpl; [auto|].
  assert (forall (request : string -> Api string) q o,
            isEditingImage (app (mutateImage apiKey request q o sys)) = false
            /\ isGenerating (app (mutateImage apiKey request q o sys)) = false) as Hmut.
  { intros request q o. unfold mutateImage.
    destruct (currentDesign (app sys)) as [prev|]; [|auto].
    destruct (negb (Js.truthy (imageUrl prev))); [auto|].
    destruct (negb apiKey); [auto|]. cbn zeta.
    destruct (request _ _) as [[t|u] w'].
    - destruct t; simpl; auto.
    - simpl. split; [reflexivity|].
      rewrite (proj2 (updateDesignState_flags _ _ _)). exact Hg. }
  apply IH; destruct a; simpl.
  all: try apply Hmut.
  all: try (unfold handleUndo; destruct (currentDesign (app sys)); [|assumption];
            case_bool_decide; [assumption|];
            first [rewrite (proj1 (updateDesignState_flags _ _ _))
                  |rewrite (proj2 (updateDesignState_flags _ _ _))]; assumption).
  all: try (unfold handleRedo; destruct (currentDesign (app sys)); [|assumption];
            case_bool_decide; [assumption|];
            first [rewrite (proj1 (updateDesignState_flags _ _ _))
                  |rewrite (proj2 (updateDesignState_flags _ _ _))]; assumption).
  - unfold handleGenerate. destruct (negb apiKey); [exact He|]. cbn zeta.
    destruct (generateStageImage _ _) as [[t|images] w1]; [destruct t; exact He|].
    destruct (generateStageDescription _ _) as [[t|text] w2]; [destruct t; exact He|].
    destruct (autoSave (app sys)); [|exact He].
    destruct (saveAll _ _) as [[t|u] s']; [destruct t|]; exact He.
  - unfold handleGenerateSimilar.
    destruct (currentDesign (app sys)) as [cur|]; [|exact He].
    destruct (negb (Js.truthy (imageUrl cur))); [exact He|].
    destruct (negb apiKey); [exact He|]. cbn zeta.
    destruct (generateSimilarVariant _ _ _) as [[t|images] w1]; [destruct t; exact He|].
    destruct (autoSave (app sys)); [|exact He].
    destruct (saveAll _ _) as [[t|u] s']; [destruct t|]; exact He.
  - unfold handleUpscale.
    destruct (upscaleTarget _ _ _) as [[target sys1]|]; reflexivity.
  - unfold handleManualSave. destruct (currentDesign (app sys)); [|exact He].
    destruct asCopy; rewrite (proj1 (updateDesignState_flags _ _ _)); exact He.
  - unfold handleDeleteDesign.
    destruct (deleteDesignFromLibrary _ _) as [l s'].
    destruct (currentDesign (app sys)); [case_bool_decide|]; exact He.
  - unfold handleUpdateDesignFolder.
    destruct (moveDesignToFolder _ _ _) as [l s'].
    destruct (currentDesign (app sys)); [case_bool_decide|]; try exact He.
    destruct (List.find _ l); exact He.
  - unfold handleDeleteFolderWithSync. destruct (deleteFolder _ _). exact He.
  - destruct (savedDesigns (app sys) !! position); exact He.
  - unfold handleGenerate. destruct (negb apiKey); [exact Hg|]. reflexivity.
  - unfold handleGenerateSimilar.
    destruct (currentDesign (app sys)) as [cur|]; [|exact Hg].
    destruct (negb (Js.truthy (imageUrl cur))); [exact Hg|].
    destruct (negb apiKey); [exact Hg|]. reflexivity.
  - unfold handleUpscale.
    assert (forall s t s1, upscaleTarget randomUUID variantUrl s = Some (t, s1) ->
              isGenerating (app s1) = isGenerating (app s)) as Htg.
    { intros s t s1. unfold upscaleTarget.
      destruct (List.find _ _); [intros [= _ <-]; reflexivity|].
      destruct (currentDesign (app s)); [|discriminate].
      destruct (_ || _); [intros [= _ <-]; reflexivity | discriminate]. }
    destruct (upscaleTarget _ _ _) as [[target sys1]|] eqn:Ht; [|exact Hg].
    apply Htg in Ht. simpl in Ht.
    destruct (upscaleStageImage _ _) as [[t|u] w'].
    + destruct t; simpl; [congruence|].
      rewrite (proj2 (updateDesignState_flags _ _ _)). simpl. congruence.
    + simpl. rewrite (proj2 (updateDesignState_flags _ _ _)). simpl. congruence.
  - unfold handleManualSave. destruct (currentDesign (app sys)); [|exact Hg].
    destruct asCopy; rewrite (proj2 (updateDesignState_flags _ _ _)); exact Hg.
  - unfold handleDeleteDesign.
    destruct (deleteDesignFromLibrary _ _) as [l s'].
    destruct (currentDesign (app sys)); [case_bool_decide|]; exact Hg.
  - unfold handleUpdateDesignFolder.
    destruct (moveDesignToFolder _ _ _) as [l s'].
    destruct (currentDesign (app sys)); [case_bool_decide|]; try exact Hg.
    destruct (List.find _ l); exact Hg.
  - unfold handleDeleteFolderWithSync. destruct (deleteFolder _ _). exact Hg.
  - destruct (savedDesigns (app sys) !! position); exact Hg.
Qed.

Lemma session_releases_busy_flags_witness :
  let api : Oracle := fun k => if (k =? 1)%nat then inl quotaError else inr (oneImage "D") in
  let sys' :=
    session (Service1.editStageImage api) (Service1.generateViewpointVariant api)
      (Service1.upscaleStageImage api) (Service1.generateStageImage api)
      (Service1.generateStageDescription api (fun _ => None))
      (Service1.generateSimilarVariant api) true (fun n => pretty n) 100
      [Upscale "img2"; EditImage "more lasers" None; Generate; UndoImage;
       Upscale "nothing"; GenerateSimilar]
      selectionSession in
  isEditingImage (app sys') = false /\ isGenerating (app sys') = false.
Proof.
  intros api sys'.
  apply (session_releases_busy_flags
           (Service1.editStageImage api) (Service1.generateViewpointVariant api)
           (Service1.upscaleStageImage api) (Service1.generateStageImage api)
           (Service1.generateStageDescription api (fun _ => None))
           (Service1.generateSimilarVariant api) true (fun n => pretty n) 100);
    reflexivity.
Defined.

(** ** Saving twice *)

(** X25. Saving is idempotent: with the database available, saving the
    same design a second time leaves the store exactly as the first save
    left it, whatever folder the record had before and whether or not the
    incoming record names a folder. *)
Theorem saveDesignToLibrary_idempotent (design : GeneratedDesign) (s : Storage) :
  db_available s = true ->
  (saveDesignToLibrary design (saveDesignToLibrary design s).2).2
  = (saveDesignToLibrary design s).2.
Proof.
  intros Hdb. unfold saveDesignToLibrary at 2 3. rewrite Hdb. cbn [snd].
  set (stored := with_folder _ design).
  unfold saveDesignToLibrary.
  change (db_available (put stored s)) with (db_available s). rewrite Hdb. cbn [snd].
  change (designs (put stored s)) with (<[id design := stored]> (designs s)).
  rewrite lookup_insert_eq. cbn [mbind option_bind].
  assert (with_folder
            match read (folder design) with
            | Some f => Given f
            | None => assign (read (folder stored))
            end design = stored) as ->.
  { subst stored. cbn [folder with_folder].
    destruct (read (folder design)) as [f|] eqn:Hf; [reflexivity|].
    destruct (designs s !! id design ≫= _); reflexivity. }
  unfold put. cbn [db_available designs folders_slot]. f_equal.
  change (id stored) with (id design). apply insert_insert_eq.
Qed.

Lemma saveDesignToLibrary_idempotent_witness :
  (saveDesignToLibrary (sampleDesign "d1" "img1" 10 Absent)
     (saveDesignToLibrary (sampleDesign "d1" "img1" 10 Absent) sampleStorage).2).2
  = (saveDesignToLibrary (sampleDesign "d1" "img1" 10 Absent) sampleStorage).2.
Proof.
  apply (saveDesignToLibrary_idempotent (sampleDesign "d1" "img1" 10 Absent) sampleStorage).
  reflexivity.
Defined.

(** ** Failed generations *)

(** X26. A generation whose image request fails changes nothing but the
    error banner: in [handleGenerate] and in [handleGenerateSimilar] the
    current design, the library list, the store and the identifier source
    are as before, the metadata request is not made, and the banner shows
    the quota text exactly when the error message carries the quota marker.
    Without an API key [handleGenerate] sends no request at all. *)
Theorem failed_generation_effects
    (generateStageImage : StageConfig -> Api (list string))
    (generateStageDescription : StageConfig -> Api DesignResponseSchema)
    (generateSimilarVariant : string -> Z -> Api (list string))
    (randomUUID : nat -> string) (now : Z) (sys : System) (err : ErrorObj) (w1 : World) :
  (generateStageImage (config (app sys)) (net sys) = (inl (Obj err), w1) ->
   let sys' := handleGenerate generateStageImage generateStageDescription true
                 randomUUID now sys in
   currentDesign (app sys') = currentDesign (app sys)
   /\ savedDesigns (app sys') = savedDesigns (app sys)
   /\ disk sys' = disk sys /\ uuids sys' = uuids sys /\ net sys' = w1
   /\ error (app sys')
      = Some (if quotaMessage err
              then "API 配額已滿，系統將自動重試但最終失敗。請稍後再試或減少生成張數。(API Quota Exceeded)"
              else "生成設計失敗。請確保您的 API Key 正確。(Failed to generate)"))
  /\ (forall cur,
        currentDesign (app sys) = Some cur ->
        Js.truthy (imageUrl cur) = true ->
        generateSimilarVariant (default "" (imageUrl cur))
          (imageCount (config (app sys))) (net sys) = (inl (Obj err), w1) ->
        let sys' := handleGenerateSimilar generateSimilarVariant true randomUUID now sys in
        currentDesign (app sys') = currentDesign (app sys)
        /\ savedDesigns (app sys') = savedDesigns (app sys)
        /\ disk sys' = disk sys /\ uuids sys' = uuids sys /\ net sys' = w1
        /\ error (app sys')
           = Some (if quotaMessage err
                   then "API 配額已滿，生成相似圖片失敗。(API Quota Exceeded for Variants)"
                   else "生成相似圖片失敗 (Failed to generate similar variant)"))
  /\ (let sys' := handleGenerate generateStageImage generateStageDescription false
                    randomUUID now sys in
      net sys' = net sys /\ disk sys' = disk sys
      /\ currentDesign (app sys') = currentDesign (app sys)
      /\ error (app sys') = Some "API Key is missing. Please set process.env.API_KEY.").
Proof.
  split; [|split].
  - intros Hfail sys'. subst sys'. unfold handleGenerate. cbn [negb]. cbn zeta.
    change (net (on_app (setError None) (on_app (setIsGenerating true) sys)))
      with (net sys).
    rewrite Hfail. repeat split.
  - intros cur Hcur Htruthy Hfail sys'. subst sys'. unfold handleGenerateSimilar.
    rewrite Hcur, Htruthy. cbn [negb]. cbn zeta.
    change (net (on_app (setError None) (on_app (setIsGenerating true) sys)))
      with (net sys).
    rewrite Hfail. simpl. rewrite Hcur. repeat split.
  - repeat split.
Qed.

Lemma failed_generation_effects_witness :
  let api : Oracle := fun _ => inl quotaError in
  let sys' := handleGenerate (Service1.generateStageImage api)
                (Service1.generateStageDescription api (fun _ => None)) true
                (fun n => pretty n) 100 selectionSession in
  currentDesign (app sys') = currentDesign (app selectionSession)
  /\ disk sys' = disk selectionSession
  /\ net sys' = mkWorld 3 [2000; 4000].
Proof.
  intros api sys'.
  destruct (failed_generation_effects (Service1.generateStageImage api)
              (Service1.generateStageDescription api (fun _ => None))
              (Service1.generateSimilarVariant api) (fun n => pretty n) 100
              selectionSession
              {| message := Some "No image generated (All attempts failed or Quota exceeded)";
                 status := None |}
              (mkWorld 3 [2000; 4000])) as (Hgen & _).
  destruct (Hgen eq_refl) as (Hcur & _ & Hdisk & _ & Hnet & _).
  split; [exact Hcur|]. split; [exact Hdisk | exact Hnet].
Defined.

(** ** The idea generator *)

(** X27. [generateCreativeConcepts] of the first copy of the service never
    throws: when the wrapped request throws, after the retries or at once,
    the result is the empty list; an answer without text gives the empty
    list without parsing; an answer whose text does not parse gives the
    empty list as well; and a text that parses is returned as parsed. *)
Theorem generateCreativeConcepts_never_throws
    (api : Oracle) (JSON_parse : string -> option (list Concepts.CreativeConcept))
    (w : World) :
  (exists ideas w', Ideas1.generateCreativeConcepts api JSON_parse w = (inr ideas, w'))
  /\ (forall t w1,
        Gemini1.retryWithBackoff (generateContent api) 3 2000 w = (inl t, w1) ->
        Ideas1.generateCreativeConcepts api JSON_parse w = (inr [], w1))
  /\ (forall r w1,
        Gemini1.retryWithBackoff (generateContent api) 3 2000 w = (inr r, w1) ->
        Js.truthy (text r) = false ->
        Ideas1.generateCreativeConcepts api JSON_parse w = (inr [], w1))
  /\ (forall r w1 t,
        Gemini1.retryWithBackoff (generateContent api) 3 2000 w = (inr r, w1) ->
        text r = Some t -> Js.truthy (text r) = true ->
        Ideas1.generateCreativeConcepts api JSON_parse w
        = (inr (default [] (JSON_parse t)), w1)).
Proof.
  split; [|split; [|split]].
  - unfold Ideas1.generateCreativeConcepts, try_catch, bind, ret, throw.
    destruct (Gemini1.retryWithBackoff _ _ _ w) as [[t|r] w1]; [eauto|].
    destruct (Js.truthy (text r)); [|eauto].
    destruct (JSON_parse _); eauto.
  - intros t w1 H. unfold Ideas1.generateCreativeConcepts, try_catch, bind.
    rewrite H. reflexivity.
  - intros r w1 H Htext. unfold Ideas1.generateCreativeConcepts, try_catch, bind.
    rewrite H, Htext. reflexivity.
  - intros r w1 t H Ht Htext.
    unfold Ideas1.generateCreativeConcepts, try_catch, bind, ret, throw.
    rewrite H, Htext, Ht. simpl. destruct (JSON_parse t); reflexivity.
Qed.

Lemma generateCreativeConcepts_never_throws_witness :
  Ideas1.generateCreativeConcepts (fun _ => inl serverError) (fun _ => None) (mkWorld 0 [])
  = (inr [], mkWorld 1 [])
  /\ Ideas1.generateCreativeConcepts (fun _ => inr (oneImage "A")) (fun _ => None)
       (mkWorld 0 []) = (inr [], mkWorld 1 []).
Proof.
  destruct (generateCreativeConcepts_never_throws (fun _ => inl serverError)
              (fun _ => None) (mkWorld 0 [])) as (_ & Hfail & _).
  destruct (generateCreativeConcepts_never_throws (fun _ => inr (oneImage "A"))
              (fun _ => None) (mkWorld 0 [])) as (_ & _ & Hempty & _).
  split.
  - apply (Hfail (Obj serverError)). reflexivity.
  - apply (Hempty (oneImage "A")); reflexivity.
Defined.
